(** * Pip reroller: detection and automation engine

    A shallow embedding of [src/app/app.py] (class [PipRerollerApp]):
    the frame classifier ([rank_mask], [merge_rectangles] with its local
    [rect_distance], [detect_and_classify]), the settings updaters, the
    run start ([start_running_async]), the rank-count publication
    ([update_rank_counts_gui]) and the exit report of [reroll_loop].

    Conventions.
    - Python integers are [Z]; NumPy fixed-width casts are written out.
    - A frame is a row-major list of rows of BGR pixels.
    - Python dictionaries keyed by rank names are [gmap string _] where only
      lookups and updates matter, and key lists where iteration is modelled.
    - Code that can raise returns a [res], see [exn]. *)

From Stdlib Require Import ZArith Lia Lra Reals Ascii String DecimalString DecimalPos.
From stdpp Require Import base option list sorting strings gmap.

Set Warnings "-clear-no-such-hyp".

Open Scope Z_scope.

(** ** Frames and masks *)

(** One BGR sample, in the channel order of the captured frame. *)
Definition pixel : Type := Z * Z * Z.

(** A 2-D buffer: [frame[i][j]] is [fr !! i ≫= (.!! j)]. *)
Definition frame : Type := list (list pixel).
Definition mask : Type := list (list Z).

Definition at2 {A} (m : list (list A)) (i j : nat) : option A :=
  m !! i ≫= (.!! j).

(** [uint8] is the dtype of a captured frame: every channel is in 0..255. *)
Definition uint8 (v : Z) : Prop := 0 <= v < 256.
Definition pixel_uint8 (p : pixel) : Prop :=
  let '(b, g, r) := p in uint8 b /\ uint8 g /\ uint8 r.
Definition frame_uint8 (fr : frame) : Prop :=
  Forall (Forall pixel_uint8) fr.

(** [ndarray.astype(np.int16)]: two's complement wrap to 16 bits. *)
Definition astype_int16 (v : Z) : Z := (v + 32768) mod 65536 - 32768.

(** [ndarray.astype(np.uint8)] of a boolean, then [* 255] in uint8. *)
Definition bool_to_uint8 (b : bool) : Z := if b then 1 else 0.
Definition mul_uint8 (a b : Z) : Z := (a * b) mod 256.

(** [diff = np.abs(frame.astype(np.int16) - color_bgr)] on one channel. The
    subtraction takes place in the integer type of [np.array(bgr)], which is
    wider than 16 bits and holds every difference. *)
Definition channel_diff (c ref : Z) : Z := Z.abs (astype_int16 c - ref).

(** [np.all(diff <= tolerance, axis=2)] at one pixel. *)
Definition all_within (p color_bgr : pixel) (tolerance : Z) : bool :=
  let '(b, g, r) := p in
  let '(cb, cg, cr) := color_bgr in
  (channel_diff b cb <=? tolerance)
  && (channel_diff g cg <=? tolerance)
  && (channel_diff r cr <=? tolerance).

(** [rank_mask]: [np.all(diff <= tolerance, axis=2).astype(np.uint8) * 255]. *)
Definition rank_mask (fr : frame) (color_bgr : pixel) (tolerance : Z) : mask :=
  map (map (fun p =>
              mul_uint8 (bool_to_uint8 (all_within p color_bgr tolerance)) 255))
      fr.

(** The specification's membership test: the absolute difference is within
    the tolerance on each of the three channels. *)
Definition within_tolerance (p color_bgr : pixel) (tolerance : Z) : Prop :=
  let '(b, g, r) := p in
  let '(cb, cg, cr) := color_bgr in
  Z.abs (b - cb) <= tolerance
  /\ Z.abs (g - cg) <= tolerance
  /\ Z.abs (r - cr) <= tolerance.

(** Number of pixels a mask marks (entries equal to 255). *)
Definition count_row (row : list Z) : nat := length (filter (λ v, v = 255) row).
Definition count_marked (m : mask) : nat := sum_list (map count_row m).

(** ** Rectangles *)

(** An axis-aligned rectangle [(x, y, w, h)], as [cv2.boundingRect] gives it. *)
Definition rect : Type := Z * Z * Z * Z.

(** A rectangle proper has no negative extent. *)
Definition rect_wf (r : rect) : Prop :=
  let '(_, _, w, h) := r in 0 <= w /\ 0 <= h.

(** The two gaps [dx], [dy] of the local function [rect_distance], with its
    flags [left], [right], [above], [below]. *)
Definition rect_gaps (r1 r2 : rect) : Z * Z :=
  let '(x1, y1, w1, h1) := r1 in
  let '(x2, y2, w2, h2) := r2 in
  let left := x2 + w2 <? x1 in
  let right := x1 + w1 <? x2 in
  let dx := if right then x2 - (x1 + w1)
            else if left then x1 - (x2 + w2)
            else 0 in
  let above := y2 + h2 <? y1 in
  let below := y1 + h1 <? y2 in
  let dy := if below then y2 - (y1 + h1)
            else if above then y1 - (y2 + h2)
            else 0 in
  (dx, dy).

(** [np.hypot(dx, dy)] on integers, read as the exact hypotenuse (the
    floating-point rounding of the result is not modelled). *)
Definition hypot (a b : Z) : R := sqrt (IZR (a * a + b * b)).

Definition rect_distance (r1 r2 : rect) : R :=
  let '(dx, dy) := rect_gaps r1 r2 in hypot dx dy.

(** The test [hypot(dx, dy) <= m] for an integer [m] (the merger is called
    with the integer setting [object_tolerance]), decided on integers; it is
    the comparison of the reals, see [hypot_le_spec]. The source compares
    float64 values: the two tests agree while the gaps and [m] stay below
    [2 ^ 26] in absolute value, where a hypotenuse above [m] exceeds it by
    more than the spacing of float64 (see [float64_exact_range] and
    [hypot_margin]); from there on the rounded hypotenuse can equal [m]
    although the exact one is larger (see [hypot_margin_lost]), and the
    source then merges where this test does not. *)
Definition hypot_le (a b m : Z) : bool :=
  (0 <=? m) && (a * a + b * b <=? m * m).

(** [rect_distance(r1, r2) <= max_distance]. *)
Definition dist_le (r1 r2 : rect) (max_distance : Z) : bool :=
  let '(dx, dy) := rect_gaps r1 r2 in hypot_le dx dy max_distance.

(** *** The specification's metric *)

(** Distance between the closed intervals [[a1, b1]] and [[a2, b2]]: zero
    when they overlap or touch, else the gap between their nearest ends. *)
Definition interval_gap (a1 b1 a2 b2 : Z) : Z :=
  Z.max 0 (Z.max (a2 - b1) (a1 - b2)).

Definition intervals_meet (a1 b1 a2 b2 : Z) : Prop := a2 <= b1 /\ a1 <= b2.

Definition x_meet (r1 r2 : rect) : Prop :=
  let '(x1, _, w1, _) := r1 in
  let '(x2, _, w2, _) := r2 in intervals_meet x1 (x1 + w1) x2 (x2 + w2).
Definition y_meet (r1 r2 : rect) : Prop :=
  let '(_, y1, _, h1) := r1 in
  let '(_, y2, _, h2) := r2 in intervals_meet y1 (y1 + h1) y2 (y2 + h2).

Definition horizontal_gap (r1 r2 : rect) : Z :=
  let '(x1, _, w1, _) := r1 in
  let '(x2, _, w2, _) := r2 in interval_gap x1 (x1 + w1) x2 (x2 + w2).
Definition vertical_gap (r1 r2 : rect) : Z :=
  let '(_, y1, _, h1) := r1 in
  let '(_, y2, _, h2) := r2 in interval_gap y1 (y1 + h1) y2 (y2 + h2).

(** ** The rectangle merger *)

(** [merged_rect]: the group's envelope [[min_x, min_y, max_x, max_y]]. *)
Definition envelope : Type := Z * Z * Z * Z.

Definition envelope_of (r : rect) : envelope :=
  let '(x, y, w, h) := r in (x, y, x + w, y + h).

Definition expand (e : envelope) (r : rect) : envelope :=
  let '(x0, y0, x1, y1) := e in
  let '(rx, ry, rw, rh) := r in
  (Z.min x0 rx, Z.min y0 ry, Z.max x1 (rx + rw), Z.max y1 (ry + rh)).

Definition envelope_rect (e : envelope) : rect :=
  let '(x0, y0, x1, y1) := e in (x0, y0, x1 - x0, y1 - y0).

(** Body of the inner loop [for j in range(i + 1, len(rects))]; the state is
    [(merged_rect, used)] and [r] is the group's seed [rects[i]]. *)
Definition merge_inner (rects : list rect) (r : rect) (max_distance : Z)
    (st : envelope * list bool) (j : nat) : envelope * list bool :=
  let '(merged_rect, used) := st in
  match used !! j, rects !! j with
  | Some false, Some rj =>
      if dist_le r rj max_distance
      then (expand merged_rect rj, <[j := true]> used)
      else st
  | _, _ => st
  end.

(** Body of the outer loop [for i, r in enumerate(rects)]; the state is
    [(merged, used)]. A rectangle already marked is skipped; both lists have
    the length of [rects], so the lookups of the loops are in range. *)
Definition merge_outer (rects : list rect) (max_distance : Z)
    (st : list rect * list bool) (i : nat) : list rect * list bool :=
  let '(merged, used) := st in
  match used !! i, rects !! i with
  | Some false, Some r =>
      let '(merged_rect, used') :=
        fold_left (merge_inner rects r max_distance)
                  (seq (S i) (length rects - S i))
                  (envelope_of r, <[i := true]> used) in
      (merged ++ [envelope_rect merged_rect], used')
  | _, _ => st
  end.

Definition merge_rectangles (rects : list rect) (max_distance : Z) : list rect :=
  fst (fold_left (merge_outer rects max_distance)
                 (seq 0 (length rects))
                 ([], replicate (length rects) false)).

(** No rectangle of the list is within [max_distance] of a later one. *)
Fixpoint pairwise_far (max_distance : Z) (rects : list rect) : bool :=
  match rects with
  | [] => true
  | r :: rest =>
      forallb (fun r' => negb (dist_le r r' max_distance)) rest
      && pairwise_far max_distance rest
  end.

(** *** The merger as a recursion on the pending rectangles

    The single pass read as the specification describes it: the first
    rectangle not yet consumed seeds a group, every later pending rectangle
    within [max_distance] of the seed is folded into the group's envelope,
    and the pass goes on with the others. *)

(** The rectangles not marked in [used], in input order. *)
Fixpoint pending (rects : list rect) (used : list bool) : list rect :=
  match rects, used with
  | r :: rects', u :: used' =>
      if u then pending rects' used' else r :: pending rects' used'
  | _, _ => []
  end.

Definition group_envelope (r : rect) (max_distance : Z) (later : list rect) : envelope :=
  foldl expand (envelope_of r)
        (filter (λ r', dist_le r r' max_distance = true) later).

Fixpoint merge_groups_fuel (fuel : nat) (max_distance : Z) (rects : list rect)
    : list rect :=
  match fuel, rects with
  | S fuel', r :: later =>
      envelope_rect (group_envelope r max_distance later)
      :: merge_groups_fuel fuel' max_distance
           (filter (λ r', dist_le r r' max_distance = false) later)
  | _, _ => []
  end.

Definition merge_groups (max_distance : Z) (rects : list rect) : list rect :=
  merge_groups_fuel (length rects) max_distance rects.

(** The envelope [e] contains the rectangle [r]. *)
Definition envelope_covers (e : envelope) (r : rect) : Prop :=
  let '(x0, y0, x1, y1) := e in
  let '(x, y, w, h) := r in
  x0 <= x /\ y0 <= y /\ x + w <= x1 /\ y + h <= y1.

(** [outer] contains [inner]. *)
Definition covers (outer inner : rect) : Prop :=
  let '(x, y, w, h) := outer in
  let '(x', y', w', h') := inner in
  x <= x' /\ y <= y' /\ x' + w' <= x + w /\ y' + h' <= y + h.

(** The bounding rectangle of two rectangles. *)
Definition bounding (r1 r2 : rect) : rect :=
  envelope_rect (expand (envelope_of r1) r2).

(** *** The boundary property as the specification words it *)

(** The two rectangles were merged into one output rectangle: some rectangle
    of the output contains both. *)
Definition merged_into_one (rects : list rect) (max_distance : Z)
    (r1 r2 : rect) : Prop :=
  exists out, out ∈ merge_rectangles rects max_distance
              /\ covers out r1 /\ covers out r2.

(** *** The range in which the float64 test is the exact one

    With positions and sizes below [2 ^ 24] in absolute value every gap is
    below [2 ^ 26] (see [rect_gaps_in_range]); with [max_distance] below
    [2 ^ 26] as well, a hypotenuse larger than [max_distance] is larger by
    more than [2 ^ -27], the largest spacing of float64 values below
    [2 ^ 26], so that rounding the hypotenuse cannot bring it down to
    [max_distance]. *)
Definition rect_in_range (r : rect) : bool :=
  let '(x, y, w, h) := r in
  (Z.abs x <? 2 ^ 24) && (Z.abs y <? 2 ^ 24)
  && (Z.abs w <? 2 ^ 24) && (Z.abs h <? 2 ^ 24).

Definition float64_exact_range (rects : list rect) (max_distance : Z) : bool :=
  forallb rect_in_range rects && (Z.abs max_distance <? 2 ^ 26).

Definition float64_margin : R := (/ IZR (2 ^ 27))%R.

(** ** Exceptions *)

Inductive exn : Type := ValueError | KeyError.

Inductive res (A : Type) : Type :=
  | Ok (a : A)
  | Raise (e : exn).
Arguments Ok {A} a.
Arguments Raise {A} e.

Definition res_bind {A B} (m : res A) (k : A -> res B) : res B :=
  match m with
  | Ok a => k a
  | Raise e => Raise e
  end.

Notation "x <-! m ; k" := (res_bind m (fun x => k))
  (at level 100, m at next level, right associativity, only parsing).

(** [try: body  except ValueError: pass] around a body that leaves the
    state [s] untouched when it raises. *)
Definition except_ValueError_pass {S} (s : S) (body : res S) : res S :=
  match body with
  | Raise ValueError => Ok s
  | other => other
  end.

(** [d[k]] on a dictionary: [KeyError] for a missing key. *)
Definition getitem {V} (d : gmap string V) (k : string) : res V :=
  match d !! k with
  | Some v => Ok v
  | None => Raise KeyError
  end.

(** Left-to-right loop over a list whose body can raise. *)
Fixpoint for_each {A S} (body : S -> A -> res S) (xs : list A) (s : S) : res S :=
  match xs with
  | [] => Ok s
  | x :: xs' => s' <-! body s x; for_each body xs' s'
  end.

(** ** The classifier *)

(** A detected object: the dictionary with keys ['rank'], ['rect'],
    ['cv2color']. *)
Record detected_obj : Type := DetectedObj {
  obj_rank : string;
  obj_rect : rect;
  obj_cv2color : pixel
}.

(** Operator settings held on the application object. *)
Record settings : Type := Settings {
  tolerance : Z;
  stop_at_ss : Z;
  click_delay_ms : Z;
  post_reroll_delay_ms : Z;
  object_tolerance : Z;
  image_poll_delay_ms : Z;
  min_quality : string;
  min_objects : Z
}.

(** The values [__init__] assigns. *)
Definition initial_settings : settings :=
  {| tolerance := 10; stop_at_ss := 0; click_delay_ms := 50;
     post_reroll_delay_ms := 500; object_tolerance := 10;
     image_poll_delay_ms := 10; min_quality := "F"; min_objects := 1 |}.

(** [list.sort(key=...)] is a stable ascending sort; it is modelled by the
    stable insertion sort, which returns the same list. *)
Fixpoint insert_by {A} (key : A -> Z) (x : A) (l : list A) : list A :=
  match l with
  | [] => [x]
  | y :: l' => if key x <=? key y then x :: y :: l'
               else y :: insert_by key x l'
  end.

Fixpoint sort_by {A} (key : A -> Z) (l : list A) : list A :=
  match l with
  | [] => []
  | x :: l' => insert_by key x (sort_by key l')
  end.

(** Ascending in the key, every element against every later one. *)
Definition ascending {A} (key : A -> Z) : list A -> Prop :=
  StronglySorted (fun a b => key a <= key b).

Section Classifier.
(** The rank table of [app.constants]: [RANKS] lists
    [(rank, bgr, tk_hex)] and [RANK_ORDER] maps a rank to its ordinal. *)
Variable RANKS : list (string * pixel * string).
Variable RANK_ORDER : string -> Z.

(** The OpenCV stages between the mask and the rectangles: closing with
    the 3x3 kernel (two iterations), external contours, the area filter
    [contourArea(c) > 1] and [boundingRect]. *)
Variable contour_rects : mask -> list rect.

(** One iteration of [for rank, bgr, _ in RANKS]: the objects appended to
    [detected]. *)
Definition detect_rank (cfg : settings) (fr : frame)
    (entry : string * pixel * string) : list detected_obj :=
  let '(rank, bgr, _) := entry in
  let mask := rank_mask fr bgr (tolerance cfg) in
  let rects := contour_rects mask in
  let merged_rects := merge_rectangles rects (object_tolerance cfg) in
  map (fun rect => DetectedObj rank rect bgr) merged_rects.

(** [detected] before the sort. *)
Definition detect_all (cfg : settings) (fr : frame) : list detected_obj :=
  flat_map (detect_rank cfg fr) RANKS.

Definition sort_key (o : detected_obj) : Z := - RANK_ORDER (obj_rank o).

Definition detect_and_classify (cfg : settings) (fr : frame) : list detected_obj :=
  sort_by sort_key (detect_all cfg fr).
End Classifier.

(** ** Settings updaters *)

(** *** [int(text)] on ASCII text *)

(** The blanks [int] strips from ASCII text: tab, line feed, vertical tab,
    form feed, carriage return and space. The separators 28..31 are not
    stripped ([int] of a text that holds one raises [ValueError]). *)
Definition is_space (c : ascii) : bool :=
  let n := N_of_ascii c in
  ((9 <=? n) && (n <=? 13) || (n =? 32))%N.

Definition digit_of (c : ascii) : option Z :=
  let n := N_of_ascii c in
  if ((48 <=? n) && (n <=? 57))%N then Some (Z.of_N n - 48) else None.

Fixpoint lstrip (l : list ascii) : list ascii :=
  match l with
  | c :: l' => if is_space c then lstrip l' else l
  | [] => []
  end.

Definition strip (l : list ascii) : list ascii :=
  rev (lstrip (rev (lstrip l))).

(** Digits with single underscores between them; [after_digit] tells whether
    the previous character was a digit. *)
Fixpoint parse_digits (l : list ascii) (acc : Z) (after_digit : bool) : option Z :=
  match l with
  | [] => if after_digit then Some acc else None
  | c :: l' =>
      match digit_of c with
      | Some d => parse_digits l' (10 * acc + d) true
      | None =>
          if (N_of_ascii c =? 95)%N && after_digit
          then parse_digits l' acc false
          else None
      end
  end.

Definition parse_int (l : list ascii) : option Z :=
  match strip l with
  | c :: l' =>
      if (N_of_ascii c =? 45)%N then Z.opp <$> parse_digits l' 0 false
      else if (N_of_ascii c =? 43)%N then parse_digits l' 0 false
      else parse_digits (c :: l') 0 false
  | [] => None
  end.

(** Python's [int(text)]: surrounding whitespace, an optional sign, decimal
    digits; [ValueError] otherwise. The text is read as ASCII, one character
    per byte: digits and blanks outside ASCII are not modelled, nor is the
    interpreter's bound on the number of digits (4300 by default), beyond
    which [int] raises [ValueError] as well. *)
Definition py_int (text : string) : res Z :=
  match parse_int (list_ascii_of_string text) with
  | Some v => Ok v
  | None => Raise ValueError
  end.

(** Python's [str(n)] of an integer. *)
Definition py_str (n : Z) : string := NilZero.string_of_int (Z.to_int n).

(** *** Assignments to one settings attribute *)

Definition set_tolerance (v : Z) (s : settings) : settings :=
  {| tolerance := v; stop_at_ss := stop_at_ss s;
     click_delay_ms := click_delay_ms s;
     post_reroll_delay_ms := post_reroll_delay_ms s;
     object_tolerance := object_tolerance s;
     image_poll_delay_ms := image_poll_delay_ms s;
     min_quality := min_quality s; min_objects := min_objects s |}.

Definition set_stop_at_ss (v : Z) (s : settings) : settings :=
  {| tolerance := tolerance s; stop_at_ss := v;
     click_delay_ms := click_delay_ms s;
     post_reroll_delay_ms := post_reroll_delay_ms s;
     object_tolerance := object_tolerance s;
     image_poll_delay_ms := image_poll_delay_ms s;
     min_quality := min_quality s; min_objects := min_objects s |}.

Definition set_min_objects (v : Z) (s : settings) : settings :=
  {| tolerance := tolerance s; stop_at_ss := stop_at_ss s;
     click_delay_ms := click_delay_ms s;
     post_reroll_delay_ms := post_reroll_delay_ms s;
     object_tolerance := object_tolerance s;
     image_poll_delay_ms := image_poll_delay_ms s;
     min_quality := min_quality s; min_objects := v |}.

Definition set_click_delay_ms (v : Z) (s : settings) : settings :=
  {| tolerance := tolerance s; stop_at_ss := stop_at_ss s;
     click_delay_ms := v;
     post_reroll_delay_ms := post_reroll_delay_ms s;
     object_tolerance := object_tolerance s;
     image_poll_delay_ms := image_poll_delay_ms s;
     min_quality := min_quality s; min_objects := min_objects s |}.

Definition set_post_reroll_delay_ms (v : Z) (s : settings) : settings :=
  {| tolerance := tolerance s; stop_at_ss := stop_at_ss s;
     click_delay_ms := click_delay_ms s;
     post_reroll_delay_ms := v;
     object_tolerance := object_tolerance s;
     image_poll_delay_ms := image_poll_delay_ms s;
     min_quality := min_quality s; min_objects := min_objects s |}.

Definition set_image_poll_delay_ms (v : Z) (s : settings) : settings :=
  {| tolerance := tolerance s; stop_at_ss := stop_at_ss s;
     click_delay_ms := click_delay_ms s;
     post_reroll_delay_ms := post_reroll_delay_ms s;
     object_tolerance := object_tolerance s;
     image_poll_delay_ms := v;
     min_quality := min_quality s; min_objects := min_objects s |}.

Definition set_object_tolerance (v : Z) (s : settings) : settings :=
  {| tolerance := tolerance s; stop_at_ss := stop_at_ss s;
     click_delay_ms := click_delay_ms s;
     post_reroll_delay_ms := post_reroll_delay_ms s;
     object_tolerance := v;
     image_poll_delay_ms := image_poll_delay_ms s;
     min_quality := min_quality s; min_objects := min_objects s |}.

(** *** The updaters

    Each takes the text of its entry widget ([entry.get()]) and the settings
    before the key release. *)

Definition update_tolerance (entry : string) (s : settings) : res settings :=
  except_ValueError_pass s (
    val <-! py_int entry;
    if (0 <=? val) && (val <=? 255) then Ok (set_tolerance val s) else Ok s).

Definition update_stop_at (entry : string) (s : settings) : res settings :=
  except_ValueError_pass s (
    val <-! py_int entry;
    if 0 <=? val then Ok (set_stop_at_ss val s) else Ok s).

Definition update_min_objects (entry : string) (s : settings) : res settings :=
  except_ValueError_pass s (
    val <-! py_int entry;
    if 1 <=? val then Ok (set_min_objects val s) else Ok s).

Definition update_click_delay (entry : string) (s : settings) : res settings :=
  except_ValueError_pass s (
    val <-! py_int entry;
    if 0 <=? val then Ok (set_click_delay_ms val s) else Ok s).

Definition update_post_reroll_delay (entry : string) (s : settings) : res settings :=
  except_ValueError_pass s (
    val <-! py_int entry;
    if 0 <=? val then Ok (set_post_reroll_delay_ms val s) else Ok s).

Definition update_image_poll_delay (entry : string) (s : settings) : res settings :=
  except_ValueError_pass s (
    val <-! py_int entry;
    if 0 <=? val then Ok (set_image_poll_delay_ms val s) else Ok s).

Definition update_object_tolerance (entry : string) (s : settings) : res settings :=
  except_ValueError_pass s (
    val <-! py_int entry;
    if 0 <=? val then Ok (set_object_tolerance val s) else Ok s).

(** What the specification asks of an updater whose field accepts the
    integers in [valid] and is assigned by [set]: the call returns, and the
    settings afterwards are [set v s] when the text parses to a valid [v] and
    the settings before otherwise. *)
Definition stores_valid_or_keeps (valid : Z -> Prop)
    (set : Z -> settings -> settings)
    (entry : string) (s : settings) (outcome : res settings) : Prop :=
  exists s', outcome = Ok s'
    /\ ((exists v, py_int entry = Ok v /\ valid v /\ s' = set v s)
        \/ ((forall v, py_int entry = Ok v -> ~ valid v) /\ s' = s)).

(** ** Starting a run *)

(** A thread object, as far as [start_running_async] looks at it. *)
Record thread : Type := Thread { is_alive : bool }.

(** The attributes of the application object that the run start reads or
    writes; [stop_reroll_event] is [true] when the event is set and
    [message_var] is the text shown to the operator. *)
Record run_state : Type := RunState {
  game_area : option (Z * Z * Z * Z);
  chisel_button_pos : option (Z * Z);
  buy_button_pos : option (Z * Z);
  game_window_title : string;
  running : bool;
  message_var : string;
  stop_reroll_event : bool;
  image_processor_thread : option thread;
  reroll_loop_thread : option thread
}.

(** The state [__init__] leaves. *)
Definition initial_run_state : run_state :=
  {| game_area := None; chisel_button_pos := None; buy_button_pos := None;
     game_window_title := "Roblox"; running := false; message_var := "";
     stop_reroll_event := false;
     image_processor_thread := None; reroll_loop_thread := None |}.

(** What the call does outside the application object, in order. *)
Inductive effect : Type :=
  | WinActivate (title : string)
  | Sleep (ms : Z)
  | UpdateStatus (running : bool)
  | StartImageProcessor
  | StartRerollLoop.

Definition set_message (msg : string) (s : run_state) : run_state :=
  {| game_area := game_area s; chisel_button_pos := chisel_button_pos s;
     buy_button_pos := buy_button_pos s;
     game_window_title := game_window_title s; running := running s;
     message_var := msg; stop_reroll_event := stop_reroll_event s;
     image_processor_thread := image_processor_thread s;
     reroll_loop_thread := reroll_loop_thread s |}.

(** [thread is None or not thread.is_alive()]. *)
Definition not_running_thread (t : option thread) : bool :=
  match t with
  | None => true
  | Some th => negb (is_alive th)
  end.

Definition msg_select_area : string := "Please select area first.".
Definition msg_set_chisel : string := "Please set Chisel Button first.".
Definition msg_set_buy : string := "Please set Buy Button first.".
Definition msg_enter_title : string := "Please enter a Game Window Title.".
Definition msg_window_not_found (title : string) : string :=
  "Error: Game window '" ++ title ++ "' not found. Please ensure it's open.".
Definition msg_starting : string := "Game window activated. Starting reroll.".

(** [start_running_async]; [win_exists] is the answer of [ahk.win_exists]. *)
Definition start_running_async (win_exists : string -> bool) (s : run_state)
    : run_state * list effect :=
  match game_area s with
  | None => (set_message msg_select_area s, [])
  | Some _ =>
  match chisel_button_pos s with
  | None => (set_message msg_set_chisel s, [])
  | Some _ =>
  match buy_button_pos s with
  | None => (set_message msg_set_buy s, [])
  | Some _ =>
    let target_title := game_window_title s in
    if String.eqb target_title "" then (set_message msg_enter_title s, [])
    else if negb (win_exists target_title)
    then (set_message (msg_window_not_found target_title) s, [])
    else
      let start_processor := not_running_thread (image_processor_thread s) in
      let start_loop := not_running_thread (reroll_loop_thread s) in
      ({| game_area := game_area s;
          chisel_button_pos := chisel_button_pos s;
          buy_button_pos := buy_button_pos s;
          game_window_title := target_title;
          running := true;
          message_var := msg_starting;
          stop_reroll_event := false;
          image_processor_thread :=
            if start_processor then Some (Thread true)
            else image_processor_thread s;
          reroll_loop_thread :=
            if start_loop then Some (Thread true)
            else reroll_loop_thread s |},
       [WinActivate target_title; Sleep 100; UpdateStatus true]
       ++ (if start_processor then [StartImageProcessor] else [])
       ++ (if start_loop then [StartRerollLoop] else []))
  end end end.

(** The preconditions of a run start. *)
Definition preconditions_hold (win_exists : string -> bool) (s : run_state) : Prop :=
  game_area s <> None
  /\ chisel_button_pos s <> None
  /\ buy_button_pos s <> None
  /\ game_window_title s <> ""%string
  /\ win_exists (game_window_title s) = true.

Definition precondition_messages (s : run_state) : list string :=
  [msg_select_area; msg_set_chisel; msg_set_buy; msg_enter_title;
   msg_window_not_found (game_window_title s)].

(** ** Publishing the rank counts *)

(** The attributes [update_rank_counts_gui] touches: the dictionary
    [rank_counts], the dictionary [rank_count_vars] (rank to the text of its
    [StringVar], in insertion order) and the cached object list. *)
Record counts_state : Type := CountsState {
  rank_counts : gmap string Z;
  rank_count_vars : list (string * string);
  last_detected_objs : list detected_obj
}.

(** [for rank in self.rank_count_vars: self.rank_counts[rank] = 0]. *)
Definition reset_counts (ranks : list string) (counts : gmap string Z) : gmap string Z :=
  foldl (fun rc rank => <[rank := 0]> rc) counts ranks.

(** [self.rank_counts[obj['rank']] += 1]. *)
Definition count_obj (counts : gmap string Z) (obj : detected_obj) : res (gmap string Z) :=
  n <-! getitem counts (obj_rank obj);
  Ok (<[obj_rank obj := n + 1]> counts).

(** [self.rank_count_vars[rank].set(str(self.rank_counts[rank]))]. *)
Definition show_count (counts : gmap string Z)
    (vars : list (string * string)) (rank : string) : res (list (string * string)) :=
  n <-! getitem counts rank;
  Ok (map (fun kv => if String.eqb (fst kv) rank then (rank, py_str n) else kv) vars).

(** [update_rank_counts_gui]; a raised exception drops the state (the
    attributes assigned before it are not returned). *)
Definition update_rank_counts_gui (detected_objs : list detected_obj)
    (s : counts_state) : res counts_state :=
  let ranks := map fst (rank_count_vars s) in
  let counts0 := reset_counts ranks (rank_counts s) in
  counts <-! for_each count_obj detected_objs counts0;
  vars <-! for_each (show_count counts) ranks (rank_count_vars s);
  Ok {| rank_counts := counts;
        rank_count_vars := vars;
        last_detected_objs := detected_objs |}.

(** The rank names of a rank table. *)
Definition rank_names (RANKS : list (string * pixel * string)) : list string :=
  map (fun entry => fst (fst entry)) RANKS.

(** The state [__init__] leaves: [{rank: 0 for rank, _, _ in RANKS}], a
    [StringVar("0")] for every key of [RANK_TK_HEX], and no cached object. *)
Definition initial_counts_state (RANKS : list (string * pixel * string))
    (RANK_TK_HEX : list (string * string)) : counts_state :=
  {| rank_counts := reset_counts (rank_names RANKS) ∅;
     rank_count_vars := map (fun kv => (fst kv, "0"%string)) RANK_TK_HEX;
     last_detected_objs := [] |}.

(** [rank_counts] and [rank_count_vars] have the table's ranks as keys. *)
Definition counts_inv (RANKS : list (string * pixel * string))
    (s : counts_state) : Prop :=
  dom (rank_counts s) = list_to_set (rank_names RANKS)
  /\ list_to_set (C := gset string) (map fst (rank_count_vars s))
     = list_to_set (rank_names RANKS).

(** Number of objects of a rank, and the sum of a dictionary's counts. *)
Definition count_rank (rank : string) (objs : list detected_obj) : Z :=
  Z.of_nat (length (filter (λ o, obj_rank o = rank) objs)).

Definition total_count (counts : gmap string Z) : Z :=
  map_fold (fun _ n acc => n + acc) 0 counts.

(** ** The reroll loop's exit report *)

(** The three [stop_reroll_event.wait(timeout=0.01)] of a cycle. *)
Inductive checkpoint : Type := BeforeClicks | AfterChisel | AfterBuy.

(** What one pass over the loop observes of the other threads: the event set
    at the [while] test, the event set at a checkpoint, or the event unset
    throughout and the snapshot [get_current_rank_counts()] returns at the
    end of the cycle. *)
Inductive observation : Type :=
  | SetAtLoopTest
  | SetAtCheckpoint (c : checkpoint)
  | NotSet (current_counts : gmap string Z).

Inductive click : Type := ClickChisel | ClickBuy.

(** The loop's local variables that outlive an iteration. *)
Record loop_vars : Type := LoopVars {
  ss_count : Z;
  filtered_count : Z
}.

(** What the loop hands to the presence reporter on exit. *)
Record exit_report : Type := ExitReport {
  report_ss_count : Z;
  stopped_from_condition : bool
}.

Section RerollLoop.
Variable RANK_ORDER : string -> Z.

(** [sum(count for rank, count in counts.items()
         if RANK_ORDER[rank] >= min_rank_idx)]. *)
Definition sum_eligible (min_rank_idx : Z) (counts : gmap string Z) : Z :=
  map_fold (fun rank count acc =>
              if min_rank_idx <=? RANK_ORDER rank then count + acc else acc)
           0 counts.

(** [counts.get("SS", 0)]. *)
Definition get_ss (counts : gmap string Z) : Z := default 0 (counts !! "SS"%string).

(** The [while] loop against a script of observations; [None] when the
    script ends with the event never seen set (the loop has not exited).
    Kept of a cycle: the clicks and the two variables assigned at its end;
    the log record, the sleeps and the progress message do not act on them.
    The settings are taken as fixed during the run. *)
Fixpoint run_cycles (cfg : settings) (script : list observation)
    (vars : loop_vars) (clicks : list click) : option (loop_vars * list click) :=
  match script with
  | [] => None
  | SetAtLoopTest :: _ => Some (vars, clicks)
  | SetAtCheckpoint BeforeClicks :: _ => Some (vars, clicks)
  | SetAtCheckpoint AfterChisel :: _ => Some (vars, clicks ++ [ClickChisel])
  | SetAtCheckpoint AfterBuy :: _ =>
      Some (vars, clicks ++ [ClickChisel; ClickBuy])
  | NotSet current_counts :: rest =>
      let min_rank_idx := RANK_ORDER (min_quality cfg) in
      run_cycles cfg rest
        {| ss_count := get_ss current_counts;
           filtered_count := sum_eligible min_rank_idx current_counts |}
        (clicks ++ [ClickChisel; ClickBuy])
  end.

(** [reroll_loop] with presence reporting enabled; [final_counts] is the
    snapshot read after the loop. *)
Definition reroll_loop (cfg : settings) (script : list observation)
    (final_counts : gmap string Z) : option (exit_report * list click) :=
  match run_cycles cfg script {| ss_count := 0; filtered_count := 0 |} [] with
  | None => None
  | Some (vars, clicks) =>
      let ss_count := get_ss final_counts in
      let filtered_count := filtered_count vars in
      Some ({| report_ss_count := ss_count;
               stopped_from_condition :=
                 (0 <? min_objects cfg) && (min_objects cfg <=? filtered_count)
                 || (0 <? stop_at_ss cfg) && (stop_at_ss cfg <=? ss_count) |},
            clicks)
  end.

(** The stop condition of the detection poller on a snapshot. *)
Definition stop_condition (cfg : settings) (counts : gmap string Z) : bool :=
  (0 <? stop_at_ss cfg) && (stop_at_ss cfg <=? get_ss counts)
  || (min_objects cfg <=? sum_eligible (RANK_ORDER (min_quality cfg)) counts).
End RerollLoop.

(** ** An example rank table

    Seven tiers from F to SS for the concrete checks below; the colours are
    placeholders. *)
Definition example_RANKS : list (string * pixel * string) :=
  [("F", (40, 40, 40), "#282828"); ("D", (80, 80, 80), "#505050");
   ("C", (120, 120, 120), "#787878"); ("B", (160, 160, 160), "#a0a0a0");
   ("A", (200, 200, 200), "#c8c8c8"); ("S", (230, 230, 230), "#e6e6e6");
   ("SS", (250, 250, 250), "#fafafa")]%string.

Definition example_RANK_TK_HEX : list (string * string) :=
  map (fun entry => (fst (fst entry), snd entry)) example_RANKS.

Fixpoint index_of (rank : string) (names : list string) (i : Z) : Z :=
  match names with
  | [] => i
  | name :: names' => if String.eqb name rank then i else index_of rank names' (i + 1)
  end.

Definition example_RANK_ORDER (rank : string) : Z :=
  index_of rank (rank_names example_RANKS) 0.

Definition counts_of (l : list (string * Z)) : gmap string Z := list_to_map l.

(** An observation that ends the loop. *)
Definition is_exit (o : observation) : bool :=
  match o with
  | NotSet _ => false
  | _ => true
  end.

(** ** Further notions for the classifier *)

(** Number of pixels of a frame. *)
Definition pixel_count {A} (m : list (list A)) : nat := sum_list (map length m).

(** A reference colour with channels in 0..255, as the rank table has them. *)
Definition color_uint8 (c : pixel) : Prop := pixel_uint8 c.

(** An envelope with its corners in order. *)
Definition envelope_wf (e : envelope) : Prop :=
  let '(x0, y0, x1, y1) := e in x0 <= x1 /\ y0 <= y1.

(** The envelope [e] lies inside the envelope [b]. *)
Definition envelope_inside (b e : envelope) : Prop :=
  let '(bx0, by0, bx1, by1) := b in
  let '(x0, y0, x1, y1) := e in
  bx0 <= x0 /\ by0 <= y0 /\ x1 <= bx1 /\ y1 <= by1.

(** ** Further notions for the rank counts *)

(** The keys of [rank_count_vars]. *)
Definition var_ranks (s : counts_state) : list string := map fst (rank_count_vars s).

(** [[obj for obj in detected_objs if RANK_ORDER[obj["rank"]] >= min_rank_idx]]
    of [reroll_loop]. *)
Definition filtered_objs (RANK_ORDER : string -> Z) (min_rank_idx : Z)
    (detected_objs : list detected_obj) : list detected_obj :=
  filter (λ o, min_rank_idx <= RANK_ORDER (obj_rank o)) detected_objs.

(** ** Key releases in the settings entries *)

(** The seven entry widgets bound to an updater by
    [entry.bind('<KeyRelease>', self.update_...)] in [__init__]. *)
Inductive entry_field : Type :=
  | ClickDelayEntry
  | PostRerollDelayEntry
  | ImagePollDelayEntry
  | ToleranceEntry
  | ObjectToleranceEntry
  | StopAtEntry
  | MinObjectsEntry.

(** The handler of a key release in an entry holding [text]. *)
Definition key_release (f : entry_field) (text : string) (s : settings) : res settings :=
  match f with
  | ClickDelayEntry => update_click_delay text s
  | PostRerollDelayEntry => update_post_reroll_delay text s
  | ImagePollDelayEntry => update_image_poll_delay text s
  | ToleranceEntry => update_tolerance text s
  | ObjectToleranceEntry => update_object_tolerance text s
  | StopAtEntry => update_stop_at text s
  | MinObjectsEntry => update_min_objects text s
  end.

(** The attribute an entry edits. *)
Definition field_value (f : entry_field) (s : settings) : Z :=
  match f with
  | ClickDelayEntry => click_delay_ms s
  | PostRerollDelayEntry => post_reroll_delay_ms s
  | ImagePollDelayEntry => image_poll_delay_ms s
  | ToleranceEntry => tolerance s
  | ObjectToleranceEntry => object_tolerance s
  | StopAtEntry => stop_at_ss s
  | MinObjectsEntry => min_objects s
  end.

(** The range test of the entry's updater. *)
Definition field_valid (f : entry_field) (v : Z) : Prop :=
  match f with
  | ToleranceEntry => 0 <= v <= 255
  | MinObjectsEntry => 1 <= v
  | _ => 0 <= v
  end.

(** Every numeric setting is in the range its updater accepts. *)
Definition settings_valid (s : settings) : Prop :=
  forall f, field_valid f (field_value f s).

(** A sequence of key releases, each with the entry and its text. *)
Definition key_releases (events : list (entry_field * string)) (s : settings)
    : res settings :=
  for_each (fun s ev => key_release (fst ev) (snd ev) s) events s.

(** The text [__init__] puts in an entry: [entry.insert(0, str(value))]. *)
Definition entry_text (f : entry_field) (s : settings) : string :=
  py_str (field_value f s).

(** Text made of decimal digits only. *)
Definition digits_only (l : list ascii) : Prop :=
  Forall (fun c => is_Some (digit_of c)) l.

(** ** The operator's actions on the run state *)

(** Calls made on the window system and on the worker threads, beside those
    of [effect]. *)
Inductive call : Type :=
  | Call (e : effect)
  | ProcessorStop
  | RootDeiconify
  | OverlayDestroy.

(** [stop_running_async]. *)
Definition stop_running_async (s : run_state) : run_state * list call :=
  ({| game_area := game_area s;
      chisel_button_pos := chisel_button_pos s;
      buy_button_pos := buy_button_pos s;
      game_window_title := game_window_title s;
      running := false;
      message_var := message_var s;
      stop_reroll_event := true;
      image_processor_thread := image_processor_thread s;
      reroll_loop_thread := reroll_loop_thread s |},
   Call (UpdateStatus false)
   :: (if negb (not_running_thread (image_processor_thread s))
       then [ProcessorStop] else [])).

(** The keys [on_key_press] tells apart. *)
Inductive key : Type := KeyF5 | KeyOther.

(** [on_key_press]: F5 starts the run when it is not running and stops it
    otherwise. *)
Definition on_key_press (win_exists : string -> bool) (k : key) (s : run_state)
    : run_state * list call :=
  match k with
  | KeyF5 =>
      if negb (running s)
      then let '(s', effects) := start_running_async win_exists s in
           (s', map Call effects)
      else stop_running_async s
  | KeyOther => (s, [])
  end.

(** [on_drag_end]: [drag_start] is the pointer position recorded by
    [on_drag_start], [release] the position of the button release. *)
Definition on_drag_end (drag_start release : Z * Z) (s : run_state)
    : run_state * list call :=
  let '(x1, y1) := drag_start in
  let '(x2, y2) := release in
  ({| game_area := Some (Z.min x1 x2, Z.min y1 y2, Z.max x1 x2, Z.max y1 y2);
      chisel_button_pos := chisel_button_pos s;
      buy_button_pos := buy_button_pos s;
      game_window_title := game_window_title s;
      running := running s;
      message_var := "Game area set.";
      stop_reroll_event := stop_reroll_event s;
      image_processor_thread := image_processor_thread s;
      reroll_loop_thread := reroll_loop_thread s |},
   [OverlayDestroy; RootDeiconify]).

(** [on_drag_motion]: the rubber band [(x, y, width, height)] placed in the
    overlay whose root origin is [origin]. *)
Definition on_drag_motion (drag_start pointer origin : Z * Z) : rect :=
  let '(x1, y1) := drag_start in
  let '(x2, y2) := pointer in
  let '(x, y) := origin in
  (Z.min x1 x2 - x, Z.min y1 y2 - y, Z.abs (x1 - x2), Z.abs (y1 - y2)).

(** [str.capitalize] on ASCII text. *)
Definition ascii_upper (c : ascii) : ascii :=
  let n := N_of_ascii c in
  if ((97 <=? n) && (n <=? 122))%N then ascii_of_N (n - 32) else c.
Definition ascii_lower (c : ascii) : ascii :=
  let n := N_of_ascii c in
  if ((65 <=? n) && (n <=? 90))%N then ascii_of_N (n + 32) else c.
Fixpoint lower (t : string) : string :=
  match t with
  | EmptyString => EmptyString
  | String c t' => String (ascii_lower c) (lower t')
  end.
Definition capitalize (t : string) : string :=
  match t with
  | EmptyString => EmptyString
  | String c t' => String (ascii_upper c) (lower t')
  end.

(** [str(pos)] of a pair of integers. *)
Definition py_str_pair (pos : Z * Z) : string :=
  "(" +:+ py_str (fst pos) +:+ ", " +:+ py_str (snd pos) +:+ ")".

(** [set_button_position]: [pos] is the pointer position of the click. *)
Definition set_button_position (pos : Z * Z) (button_type : string) (s : run_state)
    : run_state * list call :=
  let is_chisel := String.eqb button_type "chisel" in
  ({| game_area := game_area s;
      chisel_button_pos := if is_chisel then Some pos else chisel_button_pos s;
      buy_button_pos := if is_chisel then buy_button_pos s else Some pos;
      game_window_title := game_window_title s;
      running := running s;
      message_var := capitalize button_type +:+ " button set at " +:+ py_str_pair pos;
      stop_reroll_event := stop_reroll_event s;
      image_processor_thread := image_processor_thread s;
      reroll_loop_thread := reroll_loop_thread s |},
   [OverlayDestroy; RootDeiconify]).

(** What the worker threads do to the run state: the poller may set the
    cancellation event, and a thread that was created may end. *)
Definition worker_step (set_event processor_alive loop_alive : bool) (s : run_state)
    : run_state :=
  {| game_area := game_area s;
     chisel_button_pos := chisel_button_pos s;
     buy_button_pos := buy_button_pos s;
     game_window_title := game_window_title s;
     running := running s;
     message_var := message_var s;
     stop_reroll_event := stop_reroll_event s || set_event;
     image_processor_thread :=
       (fun _ => Thread processor_alive) <$> image_processor_thread s;
     reroll_loop_thread :=
       (fun _ => Thread loop_alive) <$> reroll_loop_thread s |}.

(** The events that act on the run state. *)
Inductive gui_event : Type :=
  | EvDragEnd (drag_start release : Z * Z)
  | EvSetButton (pos : Z * Z) (button_type : string)
  | EvKey (win_exists : string -> bool) (k : key)
  | EvWorker (set_event processor_alive loop_alive : bool).

Definition gui_step (s : run_state) (ev : gui_event) : run_state :=
  match ev with
  | EvDragEnd drag_start release => fst (on_drag_end drag_start release s)
  | EvSetButton pos button_type => fst (set_button_position pos button_type s)
  | EvKey win_exists k => fst (on_key_press win_exists k s)
  | EvWorker set_event processor_alive loop_alive =>
      worker_step set_event processor_alive loop_alive s
  end.

Definition gui_run (events : list gui_event) (s : run_state) : run_state :=
  fold_left gui_step events s.

(** The capture region and both button positions are set. *)
Definition configured (s : run_state) : Prop :=
  game_area s <> None /\ chisel_button_pos s <> None /\ buy_button_pos s <> None.

(** ** Runs of the reroll loop *)



(** ** The minimum-quality buttons *)

(** The look [select_quality] gives a button. *)
Record button_look : Type := ButtonLook {
  sunken : bool;
  button_bg : string;
  button_fg : string
}.

(** [getitem] on a dictionary kept as a list of items. *)
Fixpoint getitem_list {V} (d : list (string * V)) (k : string) : res V :=
  match d with
  | [] => Raise KeyError
  | (k', v) :: d' => if String.eqb k' k then Ok v else getitem_list d' k
  end.

(** One pass of [for r, btn in self.quality_buttons.items()]. *)
Definition look_for (RANK_TK_HEX : list (string * string)) (rank r : string)
    : res button_look :=
  if String.eqb r rank
  then hex <-! getitem_list RANK_TK_HEX r;
       Ok {| sunken := true; button_bg := hex; button_fg := "#222222" |}
  else Ok {| sunken := false; button_bg := "#333333"; button_fg := "#ffffff" |}.

Fixpoint config_buttons (RANK_TK_HEX : list (string * string)) (rank : string)
    (buttons : list (string * button_look)) : res (list (string * button_look)) :=
  match buttons with
  | [] => Ok []
  | (r, _) :: rest =>
      look <-! look_for RANK_TK_HEX rank r;
      rest' <-! config_buttons RANK_TK_HEX rank rest;
      Ok ((r, look) :: rest')
  end.

(** [select_quality]: the state is the settings and [quality_buttons]. *)
Definition select_quality (RANK_TK_HEX : list (string * string)) (rank : string)
    (st : settings * list (string * button_look))
    : res (settings * list (string * button_look)) :=
  let '(s, buttons) := st in
  let s' :=
    {| tolerance := tolerance s; stop_at_ss := stop_at_ss s;
       click_delay_ms := click_delay_ms s;
       post_reroll_delay_ms := post_reroll_delay_ms s;
       object_tolerance := object_tolerance s;
       image_poll_delay_ms := image_poll_delay_ms s;
       min_quality := rank; min_objects := min_objects s |} in
  buttons' <-! config_buttons RANK_TK_HEX rank buttons;
  Ok (s', buttons').

(** The buttons [__init__] creates, one per entry of [RANKS], the one of the
    initial minimum quality sunken. *)
Definition initial_button (RANK_TK_HEX : list (string * string)) (min_q rank : string)
    : res (string * button_look) :=
  hex <-! getitem_list RANK_TK_HEX rank;
  Ok (rank,
      if String.eqb rank min_q
      then {| sunken := true; button_bg := hex; button_fg := "#222222" |}
      else {| sunken := false; button_bg := "#333333"; button_fg := "#ffffff" |}).

Fixpoint initial_quality_buttons (RANK_TK_HEX : list (string * string))
    (min_q : string) (ranks : list string) : res (list (string * button_look)) :=
  match ranks with
  | [] => Ok []
  | rank :: ranks' =>
      b <-! initial_button RANK_TK_HEX min_q rank;
      rest <-! initial_quality_buttons RANK_TK_HEX min_q ranks';
      Ok (b :: rest)
  end.

(** Exactly the buttons of the current minimum quality are sunken. *)
Definition highlight_matches (st : settings * list (string * button_look)) : Prop :=
  forall r look, (r, look) ∈ snd st ->
    (sunken look = true <-> r = min_quality (fst st)).

(** A sequence of button presses. *)
Definition select_qualities (RANK_TK_HEX : list (string * string))
    (ranks : list string) (st : settings * list (string * button_look))
    : res (settings * list (string * button_look)) :=
  for_each (fun st rank => select_quality RANK_TK_HEX rank st) ranks st.

(** ** The event log *)

(** [f"{o['rank']}@({x},{y},{w},{h})"]. *)
Definition log_object (o : detected_obj) : string :=
  let '(x, y, w, h) := obj_rect o in
  obj_rank o +:+ "@(" +:+ py_str x +:+ "," +:+ py_str y +:+ "," +:+ py_str w +:+ ","
  +:+ py_str h +:+ ")".

(** The line [log_event] builds; [now] is the formatted UTC time,
    [rank_counts] and [settings] are the dictionaries as item lists, the
    values of [settings] already in their [str] form. *)
Definition log_line (now : string) (objects : list detected_obj)
    (rank_counts : list (string * Z)) (settings : list (string * string))
    (decision : string) : string :=
  let total_objs := Z.of_nat (length objects) in
  let obj_str := String.concat "; " (map log_object objects) in
  let counts_str :=
    String.concat ", " (map (fun kv => fst kv +:+ ":" +:+ py_str (snd kv)) rank_counts) in
  let settings_str :=
    String.concat ", " (map (fun kv => fst kv +:+ "=" +:+ snd kv) settings) in
  now +:+ " | Objects Detected: " +:+ py_str total_objs
  +:+ " | Object Locations: " +:+ obj_str +:+ " | Counts: " +:+ counts_str
  +:+ " | Settings: " +:+ settings_str +:+ " | Decision: " +:+ decision.

(** One call of [log_event] with its arguments. *)
Record log_call : Type := LogCall {
  log_now : string;
  log_objects : list detected_obj;
  log_counts : list (string * Z);
  log_settings : list (string * string);
  log_decision : string
}.

(** [log_event] on the buffer: nothing for an empty object list, one line
    appended otherwise. *)
Definition log_event (c : log_call) (log_buffer : list string) : list string :=
  match log_objects c with
  | [] => log_buffer
  | _ :: _ =>
      log_buffer
      ++ [log_line (log_now c) (log_objects c) (log_counts c) (log_settings c)
                   (log_decision c)]
  end.

(** What [dump_logs] leaves: the buffer, the message, and the file written
    (name and content) if any; [stamp] is the formatted local time. *)
Record dump_result : Type := DumpResult {
  dump_buffer : list string;
  dump_message : string;
  dump_file : option (string * string)
}.

Definition newline : string := String (ascii_of_N 10) EmptyString.

Definition dump_logs (stamp : string) (log_buffer : list string) : dump_result :=
  match log_buffer with
  | [] => {| dump_buffer := []; dump_message := "No logs to write.";
             dump_file := None |}
  | _ :: _ =>
      let filename := "auto_chiseler_log_" +:+ stamp +:+ ".txt" in
      {| dump_buffer := [];
         dump_message := "Logs written to " +:+ filename;
         dump_file :=
           Some (filename,
                 String.concat "" (map (fun line => line +:+ newline) log_buffer)) |}
  end.

(** Lines of a text that ends every line with a newline. *)
Fixpoint split_lines (t : string) (current : string) : list string :=
  match t with
  | EmptyString => []
  | String c t' =>
      if Ascii.eqb c (ascii_of_N 10) then current :: split_lines t' EmptyString
      else split_lines t' (current +:+ String c EmptyString)
  end.

(** A line holds no newline. *)
Fixpoint no_newline (t : string) : bool :=
  match t with
  | EmptyString => true
  | String c t' => negb (Ascii.eqb c (ascii_of_N 10)) && no_newline t'
  end.

(** The records a sequence of [log_event] calls leaves in an empty buffer. *)
Definition logged (calls : list log_call) : list string :=
  fold_left (fun buffer c => log_event c buffer) calls [].

(** * Verification *)

(** ** Lemmas on masks *)

Lemma astype_int16_uint8 v : uint8 v -> astype_int16 v = v.
Proof.
  unfold uint8, astype_int16. intros Hv.
  rewrite Z.mod_small by lia. lia.
Qed.

Lemma all_within_spec p color tol :
  pixel_uint8 p -> all_within p color tol = true <-> within_tolerance p color tol.
Proof.
  destruct p as [[b g] r], color as [[cb cg] cr]. simpl.
  intros (Hb & Hg & Hr). unfold channel_diff.
  rewrite !astype_int16_uint8 by assumption.
  rewrite !andb_true_iff, !Z.leb_le. tauto.
Qed.

Lemma all_within_mono p color t1 t2 :
  t1 <= t2 -> all_within p color t1 = true -> all_within p color t2 = true.
Proof.
  destruct p as [[b g] r], color as [[cb cg] cr]. simpl.
  rewrite !andb_true_iff, !Z.leb_le. lia.
Qed.

Lemma mask_value_cases b :
  mul_uint8 (bool_to_uint8 b) 255 = if b then 255 else 0.
Proof. destruct b; reflexivity. Qed.

Lemma at2_map {A B} (f : A -> B) (m : list (list A)) i j :
  at2 (map (map f) m) i j = f <$> at2 m i j.
Proof.
  unfold at2. rewrite list_lookup_fmap.
  destruct (m !! i) as [row|]; simpl; [apply list_lookup_fmap|done].
Qed.

Lemma at2_rank_mask fr color tol i j :
  at2 (rank_mask fr color tol) i j =
  (λ p, mul_uint8 (bool_to_uint8 (all_within p color tol)) 255) <$> at2 fr i j.
Proof. apply at2_map. Qed.

Lemma at2_Forall {A} (P : A -> Prop) (m : list (list A)) i j x :
  Forall (Forall P) m -> at2 m i j = Some x -> P x.
Proof.
  unfold at2. intros Hm Hx.
  destruct (m !! i) as [row|] eqn:Hrow; simpl in Hx; [|done].
  eapply Forall_lookup_1; [|exact Hx].
  eapply Forall_lookup_1; [exact Hm|exact Hrow].
Qed.

Lemma count_row_mono row color t1 t2 :
  t1 <= t2 ->
  (count_row (map (fun p => mul_uint8 (bool_to_uint8 (all_within p color t1)) 255) row)
   <= count_row (map (fun p => mul_uint8 (bool_to_uint8 (all_within p color t2)) 255) row))%nat.
Proof.
  intros Ht. unfold count_row.
  induction row as [|p row IH]; simpl; [lia|].
  rewrite !filter_cons, !mask_value_cases.
  destruct (all_within p color t1) eqn:H1.
  - rewrite (all_within_mono _ _ _ _ Ht H1).
    rewrite !decide_True by done. simpl. lia.
  - rewrite (decide_False (P := 0 = 255)) by done.
    destruct (all_within p color t2); case_decide; simpl; lia.
Qed.

Example rank_mask_example :
  rank_mask [[(40, 40, 40); (45, 40, 40); (40, 51, 40)];
             [(30, 30, 30); (29, 40, 40); (250, 250, 250)]] (40, 40, 40) 10
  = [[255; 255; 0]; [255; 0; 0]].
Proof. reflexivity. Qed.

(** C1. For every (uint8) frame, reference colour and tolerance, the mask of
    [rank_mask] has the shape of the frame, holds 255 at a pixel exactly when
    the absolute difference to the reference colour is at most the tolerance
    on each of the three channels at once, and holds 0 at every other pixel. *)
Theorem rank_mask_per_channel_conjunction (fr : frame) (color : pixel) (tol : Z) :
  frame_uint8 fr ->
  forall i j,
    (at2 fr i j = None -> at2 (rank_mask fr color tol) i j = None)
    /\ forall p, at2 fr i j = Some p ->
       exists v, at2 (rank_mask fr color tol) i j = Some v
         /\ (v = 255 <-> within_tolerance p color tol)
         /\ (v = 0 <-> ~ within_tolerance p color tol).
Proof.
  intros Hfr i j. rewrite at2_rank_mask. split.
  - by intros ->.
  - intros p Hp. rewrite Hp. simpl. eexists; split; [reflexivity|].
    pose proof (at2_Forall _ _ _ _ _ Hfr Hp) as Hpx.
    rewrite mask_value_cases, <- (all_within_spec p color tol Hpx).
    destruct (all_within p color tol); split; split; intros; try done.
Qed.

Lemma rank_mask_per_channel_conjunction_witness :
  let fr : frame := [[(40, 40, 40); (45, 40, 40); (40, 51, 40)];
                     [(30, 30, 30); (29, 40, 40); (250, 250, 250)]] in
  frame_uint8 fr
  /\ forall i j,
       (at2 fr i j = None -> at2 (rank_mask fr (40, 40, 40) 10) i j = None)
       /\ forall p, at2 fr i j = Some p ->
          exists v, at2 (rank_mask fr (40, 40, 40) 10) i j = Some v
            /\ (v = 255 <-> within_tolerance p (40, 40, 40) 10)
            /\ (v = 0 <-> ~ within_tolerance p (40, 40, 40) 10).
Proof.
  intros fr.
  assert (Hfr : frame_uint8 fr).
  { unfold frame_uint8, fr.
    repeat match goal with |- Forall _ _ => constructor end;
      simpl; unfold uint8; lia. }
  split; [exact Hfr|].
  exact (rank_mask_per_channel_conjunction fr (40, 40, 40) 10 Hfr).
Defined.

(** C6. Raising the colour tolerance never lowers the number of pixels the
    rank's mask marks. *)
Theorem rank_mask_tolerance_monotone (fr : frame) (color : pixel) (t1 t2 : Z) :
  t1 <= t2 ->
  (count_marked (rank_mask fr color t1) <= count_marked (rank_mask fr color t2))%nat.
Proof.
  intros Ht. unfold count_marked, rank_mask.
  induction fr as [|row fr IH]; simpl; [lia|].
  pose proof (count_row_mono row color t1 t2 Ht). lia.
Qed.


Lemma rank_mask_tolerance_monotone_witness :
  let fr : frame := [[(40, 40, 40); (45, 40, 40); (40, 51, 40)];
                     [(30, 30, 30); (29, 40, 40); (250, 250, 250)]] in
  let narrow := count_marked (rank_mask fr (40, 40, 40) 5) in
  let wide := count_marked (rank_mask fr (40, 40, 40) 10) in
  5 <= 10 /\ (narrow <= wide)%nat /\ narrow = 2%nat /\ wide = 3%nat.
Proof.
  intros fr narrow wide.
  assert (Ht : 5 <= 10) by lia.
  split; [exact Ht|]. split; [|split; reflexivity].
  exact (rank_mask_tolerance_monotone fr (40, 40, 40) 5 10 Ht).
Defined.

(** ** Lemmas on the rectangle metric *)

Lemma hypot_le_spec a b m :
  hypot_le a b m = true <-> (hypot a b <= IZR m)%R.
Proof.
  unfold hypot_le, hypot. rewrite andb_true_iff, !Z.leb_le.
  set (s := a * a + b * b). assert (0 <= s) as Hs by (subst s; nia).
  split.
  - intros [Hm Hle].
    rewrite <- (sqrt_square (IZR m)) by (apply IZR_le; exact Hm).
    apply sqrt_le_1_alt. rewrite <- mult_IZR. apply IZR_le; exact Hle.
  - intros Hle.
    assert (0 <= IZR m)%R as Hm
      by (eapply Rle_trans; [apply sqrt_pos | exact Hle]).
    split; [apply le_IZR; exact Hm|].
    apply le_IZR. rewrite mult_IZR.
    rewrite <- (sqrt_sqrt (IZR s)) by (apply IZR_le; exact Hs).
    apply Rmult_le_compat; try apply sqrt_pos; exact Hle.
Qed.

Lemma dist_le_spec r1 r2 m :
  dist_le r1 r2 m = true <-> (rect_distance r1 r2 <= IZR m)%R.
Proof.
  unfold dist_le, rect_distance. destruct (rect_gaps r1 r2) as [dx dy].
  apply hypot_le_spec.
Qed.

Lemma dist_le_false r1 r2 m :
  dist_le r1 r2 m = false <-> (IZR m < rect_distance r1 r2)%R.
Proof.
  rewrite <- not_true_iff_false, dist_le_spec. split.
  - apply Rnot_le_lt.
  - intros Hlt Hle. exact (Rlt_irrefl _ (Rlt_le_trans _ _ _ Hlt Hle)).
Qed.

Lemma hypot_0_0 : hypot 0 0 = 0%R.
Proof. unfold hypot. simpl. apply sqrt_0. Qed.

(** *** The float64 range

    Inside [float64_exact_range] the gaps stay below [2 ^ 26], and a
    hypotenuse that exceeds [max_distance] exceeds it by more than
    [float64_margin]; at [2 ^ 27] the margin is lost. *)

Lemma rect_gaps_in_range r1 r2 :
  rect_in_range r1 = true -> rect_in_range r2 = true ->
  Z.abs (fst (rect_gaps r1 r2)) < 2 ^ 26 /\ Z.abs (snd (rect_gaps r1 r2)) < 2 ^ 26.
Proof.
  destruct r1 as [[[x1 y1] w1] h1], r2 as [[[x2 y2] w2] h2].
  unfold rect_in_range, rect_gaps.
  rewrite !andb_true_iff, !Z.ltb_lt. intros H1 H2.
  change (2 ^ 24) with 16777216 in *. change (2 ^ 26) with 67108864.
  cbn [fst snd].
  split; repeat case_match; lia.
Qed.

Lemma hypot_margin a b m :
  Z.abs m < 2 ^ 26 -> (IZR m < hypot a b)%R ->
  (IZR m + float64_margin < hypot a b)%R.
Proof.
  intros Hm Hlt. unfold float64_margin, hypot in *.
  change (2 ^ 26) with 67108864 in Hm. change (2 ^ 27) with 134217728.
  set (s := a * a + b * b) in *. assert (0 <= s) as Hs by (subst s; nia).
  destruct (Z_lt_le_dec m 0) as [Hneg|Hpos].
  - assert (IZR m <= -1)%R by (apply IZR_le; lia).
    pose proof (sqrt_pos (IZR s)). lra.
  - assert (Hms : m * m < s).
    { destruct (Z_lt_le_dec (m * m) s) as [|Hle]; [done|]. exfalso.
      assert (sqrt (IZR s) <= IZR m)%R; [|lra].
      rewrite <- (sqrt_square (IZR m)) by (apply IZR_le; exact Hpos).
      apply sqrt_le_1_alt. rewrite <- mult_IZR. by apply IZR_le. }
    assert (H0 : (0 <= IZR m)%R) by (apply IZR_le; lia).
    assert (H1 : (IZR m <= 67108863)%R) by (apply IZR_le; lia).
    assert (H2 : (IZR m * IZR m + 1 <= IZR s)%R).
    { rewrite <- mult_IZR, <- plus_IZR. apply IZR_le. lia. }
    set (e := (/ 134217728)%R).
    assert (He : (e = / 134217728)%R) by done.
    rewrite <- (sqrt_square (IZR m + e)) by lra.
    apply sqrt_lt_1_alt. split; [nra|].
    nra.
Qed.

Lemma dist_margin r1 r2 m :
  Z.abs m < 2 ^ 26 -> (IZR m < rect_distance r1 r2)%R ->
  (IZR m + float64_margin < rect_distance r1 r2)%R.
Proof.
  unfold rect_distance. destruct (rect_gaps r1 r2) as [dx dy].
  apply hypot_margin.
Qed.

Lemma hypot_margin_lost :
  Rlt (IZR (2 ^ 27)) (hypot (2 ^ 27) 1)
  /\ Rlt (hypot (2 ^ 27) 1) (IZR (2 ^ 27) + / IZR (2 ^ 28))
  /\ hypot_le (2 ^ 27) 1 (2 ^ 27) = false.
Proof.
  assert (Hf : hypot_le (2 ^ 27) 1 (2 ^ 27) = false) by (vm_compute; reflexivity).
  split; [|split; [|exact Hf]].
  - apply Rnot_le_lt. intros Hle. apply hypot_le_spec in Hle. congruence.
  - unfold hypot.
    change (2 ^ 27 * 2 ^ 27 + 1 * 1) with 18014398509481985.
    change (2 ^ 27) with 134217728. change (2 ^ 28) with 268435456.
    rewrite <- (sqrt_square (134217728 + / 268435456)) by lra.
    apply sqrt_lt_1_alt. lra.
Qed.

Lemma rect_gaps_spec r1 r2 :
  rect_wf r1 -> rect_wf r2 ->
  rect_gaps r1 r2 = (horizontal_gap r1 r2, vertical_gap r1 r2).
Proof.
  destruct r1 as [[[x1 y1] w1] h1], r2 as [[[x2 y2] w2] h2].
  unfold rect_wf, rect_gaps, horizontal_gap, vertical_gap, interval_gap.
  intros [Hw1 Hh1] [Hw2 Hh2].
  destruct (Z.ltb_spec (x1 + w1) x2), (Z.ltb_spec (x2 + w2) x1),
    (Z.ltb_spec (y1 + h1) y2), (Z.ltb_spec (y2 + h2) y1);
    f_equal; lia.
Qed.

(** C2. For well-formed rectangles the distance of [rect_distance] is the
    hypotenuse of the horizontal and the vertical gap between the nearest
    edges; each gap is 0 when the projections on its axis overlap or touch and
    is otherwise the positive distance between the two facing edges; so the
    distance is 0 when the rectangles overlap or touch on both axes. *)
Theorem rect_distance_is_hypotenuse_of_gaps (x1 y1 w1 h1 x2 y2 w2 h2 : Z) :
  let r1 : rect := (x1, y1, w1, h1) in
  let r2 : rect := (x2, y2, w2, h2) in
  rect_wf r1 -> rect_wf r2 ->
  (x_meet r1 r2 /\ y_meet r1 r2 -> rect_distance r1 r2 = 0%R)
  /\ rect_distance r1 r2 = hypot (horizontal_gap r1 r2) (vertical_gap r1 r2)
  /\ (x_meet r1 r2 -> horizontal_gap r1 r2 = 0)
  /\ (y_meet r1 r2 -> vertical_gap r1 r2 = 0)
  /\ (~ x_meet r1 r2 ->
      (x1 + w1 < x2 /\ horizontal_gap r1 r2 = x2 - (x1 + w1))
      \/ (x2 + w2 < x1 /\ horizontal_gap r1 r2 = x1 - (x2 + w2)))
  /\ (~ y_meet r1 r2 ->
      (y1 + h1 < y2 /\ vertical_gap r1 r2 = y2 - (y1 + h1))
      \/ (y2 + h2 < y1 /\ vertical_gap r1 r2 = y1 - (y2 + h2))).
Proof.
  intros r1 r2 Hwf1 Hwf2.
  assert (Hd : rect_distance r1 r2
               = hypot (horizontal_gap r1 r2) (vertical_gap r1 r2)).
  { unfold rect_distance. by rewrite (rect_gaps_spec r1 r2 Hwf1 Hwf2). }
  assert (Hx : x_meet r1 r2 -> horizontal_gap r1 r2 = 0).
  { subst r1 r2. unfold x_meet, intervals_meet, horizontal_gap, interval_gap. lia. }
  assert (Hy : y_meet r1 r2 -> vertical_gap r1 r2 = 0).
  { subst r1 r2. unfold y_meet, intervals_meet, vertical_gap, interval_gap. lia. }
  repeat split; try assumption.
  - intros [Hmx Hmy]. rewrite Hd, (Hx Hmx), (Hy Hmy). apply hypot_0_0.
  - subst r1 r2. destruct Hwf1, Hwf2.
    unfold x_meet, intervals_meet, horizontal_gap, interval_gap. lia.
  - subst r1 r2. destruct Hwf1, Hwf2.
    unfold y_meet, intervals_meet, vertical_gap, interval_gap. lia.
Qed.

Lemma rect_distance_is_hypotenuse_of_gaps_witness :
  let r1 : rect := (0, 0, 4, 4) in
  let r2 : rect := (7, 8, 4, 4) in
  rect_wf r1 /\ rect_wf r2
  /\ rect_distance r1 r2 = hypot (horizontal_gap r1 r2) (vertical_gap r1 r2)
  /\ horizontal_gap r1 r2 = 3 /\ vertical_gap r1 r2 = 4.
Proof.
  intros r1 r2.
  assert (Hwf1 : rect_wf r1) by (simpl; lia).
  assert (Hwf2 : rect_wf r2) by (simpl; lia).
  split; [exact Hwf1|]. split; [exact Hwf2|].
  split; [|split; reflexivity].
  exact (proj1 (proj2
    (rect_distance_is_hypotenuse_of_gaps 0 0 4 4 7 8 4 4 Hwf1 Hwf2))).
Defined.

(** ** Lemmas on the merger *)

Lemma envelope_rect_of r : envelope_rect (envelope_of r) = r.
Proof.
  destruct r as [[[x y] w] h]. unfold envelope_rect, envelope_of.
  repeat f_equal; lia.
Qed.

Lemma merge_rectangles_one r m : merge_rectangles [r] m = [r].
Proof.
  unfold merge_rectangles. simpl. by rewrite envelope_rect_of.
Qed.

Lemma merge_rectangles_two r1 r2 m :
  merge_rectangles [r1; r2] m
  = if dist_le r1 r2 m then [bounding r1 r2] else [r1; r2].
Proof.
  unfold merge_rectangles, bounding. simpl.
  destruct (dist_le r1 r2 m); simpl.
  - reflexivity.
  - by rewrite !envelope_rect_of.
Qed.

(** *** The index loops against the recursion on pending rectangles *)

Lemma merge_groups_fuel_enough f1 f2 m (l : list rect) :
  (length l <= f1)%nat -> (length l <= f2)%nat ->
  merge_groups_fuel f1 m l = merge_groups_fuel f2 m l.
Proof.
  revert f2 l. induction f1 as [|f1 IH]; intros f2 l H1 H2.
  - destruct l; [by destruct f2|simpl in H1; lia].
  - destruct l as [|r later]; [by destruct f2|].
    destruct f2 as [|f2]; [simpl in H2; lia|]. simpl. f_equal.
    simpl in H1, H2.
    pose proof (length_filter (λ r', dist_le r r' m = false) later).
    apply IH; lia.
Qed.

Lemma merge_groups_cons m r (later : list rect) :
  merge_groups m (r :: later)
  = envelope_rect (group_envelope r m later)
    :: merge_groups m (filter (λ r', dist_le r r' m = false) later).
Proof.
  unfold merge_groups. simpl. f_equal.
  pose proof (length_filter (λ r', dist_le r r' m = false) later).
  apply merge_groups_fuel_enough; lia.
Qed.

Lemma pending_drop_used (rects : list rect) used j :
  used !! j = Some true ->
  pending (drop j rects) (drop j used) = pending (drop (S j) rects) (drop (S j) used).
Proof.
  intros Hu. rewrite (drop_S used _ _ Hu).
  destruct (rects !! j) as [r|] eqn:Hr.
  - by rewrite (drop_S rects _ _ Hr).
  - apply lookup_ge_None in Hr.
    by rewrite (drop_ge rects j), (drop_ge rects (S j)) by lia.
Qed.

Lemma pending_drop_unused (rects : list rect) used j r :
  used !! j = Some false -> rects !! j = Some r ->
  pending (drop j rects) (drop j used)
  = r :: pending (drop (S j) rects) (drop (S j) used).
Proof.
  intros Hu Hr. by rewrite (drop_S used _ _ Hu), (drop_S rects _ _ Hr).
Qed.

Lemma take_S_eq {A} (l1 l2 : list A) j :
  take (S j) l1 = take (S j) l2 -> take j l1 = take j l2.
Proof.
  intros H. apply (f_equal (take j)) in H.
  rewrite !take_take in H. by replace (j `min` S j)%nat with j in H by lia.
Qed.

Lemma lookup_take_S_eq {A} (l1 l2 : list A) j :
  take (S j) l1 = take (S j) l2 -> l1 !! j = l2 !! j.
Proof.
  intros H. by rewrite <- (lookup_take_lt l1 (S j)), H, lookup_take_lt by lia.
Qed.

(** The inner loop from index [j]: it folds the pending rectangles within
    reach of the seed into the envelope and marks them, and touches nothing
    before [j]. *)
Lemma merge_inner_pending (rects : list rect) r m k :
  forall j e used,
    (j + k = length rects)%nat -> length used = length rects ->
    exists used',
      fold_left (merge_inner rects r m) (seq j k) (e, used)
      = (foldl expand e
           (filter (λ r', dist_le r r' m = true)
              (pending (drop j rects) (drop j used))),
         used')
      /\ length used' = length rects
      /\ take j used' = take j used
      /\ pending (drop j rects) (drop j used')
         = filter (λ r', dist_le r r' m = false)
             (pending (drop j rects) (drop j used)).
Proof.
  induction k as [|k IH]; intros j e used Hjk Hlen.
  - exists used. rewrite !drop_ge by lia. by destruct rects.
  - destruct (lookup_lt_is_Some_2 rects j ltac:(lia)) as [rj Hrj].
    destruct (lookup_lt_is_Some_2 used j ltac:(lia)) as [u Hu].
    cbn [seq fold_left]. unfold merge_inner at 2. rewrite Hu, Hrj.
    destruct u.
    + destruct (IH (S j) e used ltac:(lia) Hlen)
        as (used' & Hrun & Hlen' & Htake & Hpend).
      exists used'. rewrite Hrun.
      assert (Hu' : used' !! j = Some true)
        by (by rewrite (lookup_take_S_eq _ _ _ Htake)).
      rewrite (pending_drop_used _ _ _ Hu), (pending_drop_used _ _ _ Hu').
      repeat split; try done. by apply take_S_eq.
    + destruct (dist_le r rj m) eqn:Hd.
      * destruct (IH (S j) (expand e rj) (<[j := true]> used) ltac:(lia)
                    ltac:(by rewrite length_insert))
          as (used' & Hrun & Hlen' & Htake & Hpend).
        exists used'. rewrite Hrun.
        rewrite drop_insert_lt in Hpend |- * by lia.
        assert (Hu' : used' !! j = Some true).
        { rewrite (lookup_take_S_eq _ _ _ Htake).
          apply list_lookup_insert_eq. lia. }
        rewrite (pending_drop_unused _ _ _ _ Hu Hrj),
          (pending_drop_used _ _ _ Hu').
        rewrite !filter_cons, Hd, decide_True, decide_False by done.
        repeat split; try done.
        rewrite (take_S_eq _ _ _ Htake). apply take_insert_ge. lia.
      * destruct (IH (S j) e used ltac:(lia) Hlen)
          as (used' & Hrun & Hlen' & Htake & Hpend).
        exists used'. rewrite Hrun.
        assert (Hu' : used' !! j = Some false)
          by (by rewrite (lookup_take_S_eq _ _ _ Htake)).
        rewrite (pending_drop_unused _ _ _ _ Hu Hrj),
          (pending_drop_unused _ _ _ _ Hu' Hrj).
        rewrite !filter_cons, Hd, decide_False, decide_True by done.
        repeat split; try done.
        -- by apply take_S_eq.
        -- by rewrite Hpend.
Qed.

(** The outer loop from index [i]: one group per pending rectangle that is
    still pending when the loop reaches it. *)
Lemma merge_outer_pending (rects : list rect) m k :
  forall i merged used,
    (i + k = length rects)%nat -> length used = length rects ->
    fst (fold_left (merge_outer rects m) (seq i k) (merged, used))
    = merged ++ merge_groups m (pending (drop i rects) (drop i used)).
Proof.
  induction k as [|k IH]; intros i merged used Hik Hlen.
  - rewrite !drop_ge by lia. simpl. destruct rects; by rewrite app_nil_r.
  - destruct (lookup_lt_is_Some_2 rects i ltac:(lia)) as [r Hr].
    destruct (lookup_lt_is_Some_2 used i ltac:(lia)) as [u Hu].
    cbn [seq fold_left]. unfold merge_outer at 2. rewrite Hu, Hr.
    destruct u.
    + rewrite IH by (lia || done). by rewrite (pending_drop_used _ _ _ Hu).
    + destruct (merge_inner_pending rects r m (length rects - S i) (S i)
                  (envelope_of r) (<[i := true]> used) ltac:(lia)
                  ltac:(by rewrite length_insert))
        as (used' & Hrun & Hlen' & _ & Hpend).
      rewrite Hrun, IH by (lia || done).
      rewrite drop_insert_lt in Hpend |- * by lia.
      rewrite Hpend, (pending_drop_unused _ _ _ _ Hu Hr), merge_groups_cons.
      by rewrite <- app_assoc.
Qed.

Lemma pending_all_false (rects : list rect) :
  pending rects (replicate (length rects) false) = rects.
Proof. induction rects as [|r rects IH]; simpl; [done|by rewrite IH]. Qed.

(** The two loops compute the recursion on pending rectangles. *)
Lemma merge_rectangles_groups (rects : list rect) m :
  merge_rectangles rects m = merge_groups m rects.
Proof.
  unfold merge_rectangles.
  rewrite (merge_outer_pending rects m (length rects) 0 [])
    by (lia || by rewrite length_replicate).
  simpl. by rewrite pending_all_false.
Qed.

Lemma merge_rectangles_cons r (later : list rect) m :
  merge_rectangles (r :: later) m
  = envelope_rect (group_envelope r m later)
    :: merge_rectangles (filter (λ r', dist_le r r' m = false) later) m.
Proof. by rewrite !merge_rectangles_groups, merge_groups_cons. Qed.

Lemma filter_all {A} (P : A -> Prop) `{!forall x, Decision (P x)} (l : list A) :
  Forall P l -> filter P l = l.
Proof.
  induction 1 as [|x l Hx Hl IH]; [done|].
  by rewrite filter_cons_True, IH.
Qed.

Lemma filter_none {A} (P : A -> Prop) `{!forall x, Decision (P x)} (l : list A) :
  Forall (fun x => ~ P x) l -> filter P l = [].
Proof.
  induction 1 as [|x l Hx Hl IH]; [done|].
  by rewrite filter_cons_False, IH.
Qed.

(** A list without two rectangles in reach of each other is left as it is. *)
Lemma merge_rectangles_far (rects : list rect) m :
  pairwise_far m rects = true -> merge_rectangles rects m = rects.
Proof.
  induction rects as [|r rest IH]; [done|]. simpl.
  intros [Hhead Htail]%andb_true_iff.
  assert (Hfar : Forall (λ r', dist_le r r' m = false) rest).
  { apply Forall_forall. intros r' Hr'.
    rewrite forallb_forall in Hhead.
    by apply negb_true_iff, Hhead, list_elem_of_In. }
  rewrite merge_rectangles_cons. unfold group_envelope.
  rewrite (filter_all _ _ Hfar), (IH Htail), filter_none.
  - simpl. by rewrite envelope_rect_of.
  - eapply Forall_impl; [exact Hfar|]. simpl. intros r' ->. done.
Qed.

Lemma expand_covers_old e r r' :
  envelope_covers e r -> envelope_covers (expand e r') r.
Proof.
  destruct e as [[[x0 y0] x1] y1], r as [[[x y] w] h], r' as [[[x' y'] w'] h'].
  simpl. lia.
Qed.

Lemma expand_covers_new e r : envelope_covers (expand e r) r.
Proof.
  destruct e as [[[x0 y0] x1] y1], r as [[[x y] w] h]. simpl. lia.
Qed.

Lemma foldl_expand_covers_old (l : list rect) e r :
  envelope_covers e r -> envelope_covers (foldl expand e l) r.
Proof.
  revert e. induction l as [|r' l IH]; intros e He; simpl; [done|].
  by apply IH, expand_covers_old.
Qed.

Lemma foldl_expand_covers_elem (l : list rect) e r :
  r ∈ l -> envelope_covers (foldl expand e l) r.
Proof.
  revert e. induction l as [|r' l IH]; intros e Hr; simpl.
  - by apply elem_of_nil in Hr.
  - apply elem_of_cons in Hr as [->|Hr]; [|by apply IH].
    apply foldl_expand_covers_old, expand_covers_new.
Qed.

Lemma envelope_rect_covers e r :
  envelope_covers e r -> covers (envelope_rect e) r.
Proof.
  destruct e as [[[x0 y0] x1] y1], r as [[[x y] w] h]. simpl. lia.
Qed.

Lemma group_envelope_covers_seed r m (later : list rect) :
  covers (envelope_rect (group_envelope r m later)) r.
Proof.
  apply envelope_rect_covers, foldl_expand_covers_old.
  destruct r as [[[x y] w] h]. simpl. lia.
Qed.

(** The rectangles in front of [r1] that are farther than [max_distance]
    from [r1] and from [r2] seed or join groups of their own and take
    neither: the pass reaches [r1] as a seed with [r2] still pending. *)
Lemma merge_rectangles_skip_far (m : Z) (r1 r2 : rect) (n : nat) :
  forall pre later : list rect,
    (length pre <= n)%nat ->
    Forall (λ p, dist_le p r1 m = false /\ dist_le p r2 m = false) pre ->
    r2 ∈ later ->
    exists outs later',
      merge_rectangles (pre ++ r1 :: later) m
      = outs ++ merge_rectangles (r1 :: later') m
      /\ r2 ∈ later' /\ sublist later' later.
Proof.
  induction n as [|n IH]; intros pre later Hlen Hfar Hin.
  - destruct pre; [|simpl in Hlen; lia].
    exists [], later. done.
  - destruct pre as [|p pre]; [by exists [], later|].
    simpl in Hlen. inversion Hfar as [|? ? [Hp1 Hp2] Hfar']; subst.
    cbn [app]. rewrite merge_rectangles_cons, filter_app.
    rewrite filter_cons_True by exact Hp1.
    destruct (IH (filter (λ r', dist_le p r' m = false) pre)
                 (filter (λ r', dist_le p r' m = false) later))
      as (outs & later' & Heq & Hin' & Hsub).
    + pose proof (length_filter (λ r', dist_le p r' m = false) pre). lia.
    + apply Forall_forall. intros q Hq. apply list_elem_of_filter in Hq.
      rewrite Forall_forall in Hfar'. apply Hfar', Hq.
    + apply list_elem_of_filter. done.
    + exists (envelope_rect (group_envelope p m (pre ++ r1 :: later)) :: outs), later'.
      split; [by rewrite Heq|]. split; [done|].
      etrans; [exact Hsub|]. apply sublist_filter.
Qed.

(** C3, amended. Inside the range where the float64 test of the source is the
    exact one: for an input made of two rectangles, a distance of exactly
    [max_distance] gives their bounding rectangle, which contains both, and a
    larger distance (then larger by more than [float64_margin]) gives the two
    rectangles unchanged. Scenario B: [(0,0,4,4)] and [(5,0,4,4)] give
    [(0,0,9,4)] for [max_distance = 1] and stay apart for 0. In a longer input
    the same holds of [r1] and a later [r2] when every rectangle in front of
    [r1] is farther than [max_distance] from both: [r1] seeds a group, at
    distance exactly [max_distance] the output rectangle of that group
    contains [r2] and [r2] is consumed, and at a larger distance [r2] is left
    for the groups that follow. *)
Theorem merge_rectangles_boundary (r1 r2 : rect) (m : Z) :
  (float64_exact_range [r1; r2] m = true ->
     (rect_distance r1 r2 = IZR m ->
        merge_rectangles [r1; r2] m = [bounding r1 r2]
        /\ merged_into_one [r1; r2] m r1 r2)
     /\ ((IZR m < rect_distance r1 r2)%R ->
        merge_rectangles [r1; r2] m = [r1; r2]
        /\ (IZR m + float64_margin < rect_distance r1 r2)%R))
  /\ merge_rectangles [(0,0,4,4); (5,0,4,4)] 1 = [(0,0,9,4)]
  /\ merge_rectangles [(0,0,4,4); (5,0,4,4)] 0 = [(0,0,4,4); (5,0,4,4)]
  /\ (forall before later : list rect,
       float64_exact_range (before ++ r1 :: later) m = true ->
       Forall (λ p, (IZR m < rect_distance p r1)%R
                    /\ (IZR m < rect_distance p r2)%R) before ->
       r2 ∈ later ->
       exists (outs : list rect) (out : rect) (pending left_over : list rect),
         merge_rectangles (before ++ r1 :: later) m
         = outs ++ out :: merge_rectangles left_over m
         /\ sublist pending later /\ r2 ∈ pending
         /\ left_over = filter (λ r', dist_le r1 r' m = false) pending
         /\ covers out r1
         /\ (rect_distance r1 r2 = IZR m ->
               covers out r2 /\ (r2 ∉ left_over)
               /\ merged_into_one (before ++ r1 :: later) m r1 r2)
         /\ ((IZR m < rect_distance r1 r2)%R ->
               r2 ∈ left_over
               /\ (IZR m + float64_margin < rect_distance r1 r2)%R)).
Proof.
  split; [|split; [reflexivity|split; [reflexivity|]]].
  - intros Hrange. rewrite merge_rectangles_two.
    unfold float64_exact_range in Hrange.
    apply andb_true_iff in Hrange as [_ Hm]. apply Z.ltb_lt in Hm.
    split.
    + intros Heq.
      assert (Hd : dist_le r1 r2 m = true).
      { apply dist_le_spec. rewrite Heq. apply Rle_refl. }
      unfold merged_into_one. rewrite merge_rectangles_two, Hd.
      split; [done|]. exists (bounding r1 r2).
      split; [apply list_elem_of_here|].
      unfold bounding. split; apply envelope_rect_covers.
      * destruct r1 as [[[x1 y1] w1] h1], r2 as [[[x2 y2] w2] h2]. simpl. lia.
      * destruct r1 as [[[x1 y1] w1] h1], r2 as [[[x2 y2] w2] h2]. simpl. lia.
    + intros Hlt. rewrite (proj2 (dist_le_false r1 r2 m) Hlt).
      split; [done|]. by apply dist_margin.
  - intros before later Hrange Hfar Hin.
    unfold float64_exact_range in Hrange.
    apply andb_true_iff in Hrange as [_ Hm]. apply Z.ltb_lt in Hm.
    destruct (merge_rectangles_skip_far m r1 r2 (length before) before later)
      as (outs & pending & Heq & Hin' & Hsub); [done| |done|].
    { eapply Forall_impl; [exact Hfar|]. intros p [H1 H2].
      split; by apply dist_le_false. }
    rewrite merge_rectangles_cons in Heq.
    exists outs, (envelope_rect (group_envelope r1 m pending)), pending,
      (filter (λ r', dist_le r1 r' m = false) pending).
    split; [exact Heq|]. split; [exact Hsub|]. split; [exact Hin'|].
    split; [reflexivity|].
    split; [apply group_envelope_covers_seed|]. split.
    + intros Hd0.
      assert (Hd : dist_le r1 r2 m = true).
      { apply dist_le_spec. rewrite Hd0. apply Rle_refl. }
      assert (Hc : covers (envelope_rect (group_envelope r1 m pending)) r2).
      { apply envelope_rect_covers, foldl_expand_covers_elem.
        by apply list_elem_of_filter. }
      split; [exact Hc|]. split.
      * rewrite list_elem_of_filter. intros [Hf _]. congruence.
      * exists (envelope_rect (group_envelope r1 m pending)).
        rewrite Heq. split; [|split; [apply group_envelope_covers_seed|exact Hc]].
        apply elem_of_app. right. apply list_elem_of_here.
    + intros Hlt. split; [|by apply dist_margin].
      apply list_elem_of_filter. split; [by apply dist_le_false|done].
Qed.

Lemma merge_rectangles_boundary_witness :
  float64_exact_range [(0,0,4,4); (5,0,4,4)] 1 = true
  /\ rect_distance (0,0,4,4) (5,0,4,4) = IZR 1
  /\ merge_rectangles [(0,0,4,4); (5,0,4,4)] 1 = [bounding (0,0,4,4) (5,0,4,4)]
  /\ float64_exact_range [(0,0,4,4); (5,0,4,4)] 0 = true
  /\ Rlt (IZR 0) (rect_distance (0,0,4,4) (5,0,4,4))
  /\ merge_rectangles [(0,0,4,4); (5,0,4,4)] 0 = [(0,0,4,4); (5,0,4,4)]
  /\ float64_exact_range ([(0,20,4,4)] ++ (0,0,4,4) :: [(20,0,4,4); (5,0,4,4)]) 1
     = true
  /\ Forall (λ p, Rlt (IZR 1) (rect_distance p (0,0,4,4))
                  /\ Rlt (IZR 1) (rect_distance p (5,0,4,4))) [(0,20,4,4)]
  /\ (5,0,4,4) ∈ [(20,0,4,4); (5,0,4,4)]
  /\ merged_into_one ([(0,20,4,4)] ++ (0,0,4,4) :: [(20,0,4,4); (5,0,4,4)]) 1
       (0,0,4,4) (5,0,4,4).
Proof.
  assert (Hd : rect_distance (0,0,4,4) (5,0,4,4) = IZR 1).
  { unfold rect_distance, hypot. simpl. apply sqrt_1. }
  assert (Hlt : Rlt (IZR 0) (rect_distance (0,0,4,4) (5,0,4,4))).
  { rewrite Hd. apply Rlt_0_1. }
  assert (Hfar : Forall (λ p, Rlt (IZR 1) (rect_distance p (0,0,4,4))
                  /\ Rlt (IZR 1) (rect_distance p (5,0,4,4))) [(0,20,4,4)]).
  { constructor; [|constructor].
    split; apply dist_le_false; reflexivity. }
  assert (Hin : (5,0,4,4) ∈ [(20,0,4,4); (5,0,4,4)]).
  { apply (bool_decide_eq_true_1 _). vm_compute. reflexivity. }
  split; [reflexivity|]. split; [exact Hd|]. split.
  { exact (proj1 (proj1 (proj1 (merge_rectangles_boundary (0,0,4,4) (5,0,4,4) 1)
                           eq_refl) Hd)). }
  split; [reflexivity|]. split; [exact Hlt|]. split.
  { exact (proj1 (proj2 (proj1 (merge_rectangles_boundary (0,0,4,4) (5,0,4,4) 0)
                           eq_refl) Hlt)). }
  split; [reflexivity|]. split; [exact Hfar|]. split; [exact Hin|].
  destruct (proj2 (proj2 (proj2 (merge_rectangles_boundary (0,0,4,4) (5,0,4,4) 1)))
              [(0,20,4,4)] [(20,0,4,4); (5,0,4,4)] eq_refl Hfar Hin)
    as (outs & out & pending & left_over & _ & _ & _ & _ & _ & Hex & _).
  exact (proj2 (proj2 (Hex Hd))).
Defined.

(** C3 as stated fails for a pair that is not tested against each other.
    In [[(0,0,4,4); (5,0,4,4); (10,0,4,4)]] with [max_distance = 1] the last
    two are at distance exactly 1, yet the second is consumed by the first
    and the third, 6 away from that seed, comes out alone: no output
    rectangle contains both. With the middle rectangle in front,
    [[(5,0,4,4); (0,0,4,4); (10,0,4,4)]], the rectangles [(0,0,4,4)] and
    [(10,0,4,4)] are 6 apart and still come out as the single rectangle
    [(0,0,14,4)], each being within 1 of the seed. *)
Lemma merge_rectangles_boundary_fails_behind_a_seed :
  (merge_rectangles [(0,0,4,4); (5,0,4,4); (10,0,4,4)] 1
   = [(0,0,9,4); (10,0,4,4)]
   /\ rect_distance (5,0,4,4) (10,0,4,4) = IZR 1
   /\ ~ merged_into_one [(0,0,4,4); (5,0,4,4); (10,0,4,4)] 1
          (5,0,4,4) (10,0,4,4))
  /\ (merge_rectangles [(5,0,4,4); (0,0,4,4); (10,0,4,4)] 1 = [(0,0,14,4)]
      /\ Rlt (IZR 1) (rect_distance (0,0,4,4) (10,0,4,4))
      /\ merged_into_one [(5,0,4,4); (0,0,4,4); (10,0,4,4)] 1
           (0,0,4,4) (10,0,4,4)).
Proof.
  assert (H1 : merge_rectangles [(0,0,4,4); (5,0,4,4); (10,0,4,4)] 1
               = [(0,0,9,4); (10,0,4,4)]) by (vm_compute; reflexivity).
  assert (H2 : merge_rectangles [(5,0,4,4); (0,0,4,4); (10,0,4,4)] 1
               = [(0,0,14,4)]) by (vm_compute; reflexivity).
  split; [split; [exact H1|split]|split; [exact H2|split]].
  - unfold rect_distance, hypot. simpl. apply sqrt_1.
  - unfold merged_into_one. rewrite H1. intros (out & Hin & Hc1 & Hc2).
    apply elem_of_cons in Hin as [->|Hin].
    + simpl in Hc2. lia.
    + apply elem_of_cons in Hin as [->|Hin].
      * simpl in Hc1. lia.
      * by apply elem_of_nil in Hin.
  - apply dist_le_false. reflexivity.
  - unfold merged_into_one. rewrite H2. exists (0,0,14,4).
    split; [apply list_elem_of_here|]. simpl. lia.
Qed.

Example merge_scenario_chain :
  merge_rectangles [(0,0,4,4); (5,0,4,4); (10,0,4,4)] 1 = [(0,0,9,4); (10,0,4,4)].
Proof. reflexivity. Qed.

(** C5, as the specification states it, fails: in the chain below the seed
    [(0,0,4,4)] takes [(5,0,4,4)] but not [(10,0,4,4)]; a second pass then
    merges the grown rectangle with the one left over. *)
Lemma merge_rectangles_not_idempotent :
  ~ (forall (rects : list rect) (m : Z),
       merge_rectangles (merge_rectangles rects m) m = merge_rectangles rects m).
Proof.
  intros Hidem.
  specialize (Hidem [(0,0,4,4); (5,0,4,4); (10,0,4,4)] 1).
  vm_compute in Hidem. discriminate Hidem.
Qed.

(** C5, amended. A second pass with the same [max_distance] returns the
    output of the first unchanged whenever no output rectangle is within
    [max_distance] of a later one; this is the case for every input of at
    most two rectangles. *)
Theorem merge_rectangles_idempotent_when_far (rects : list rect) (m : Z) :
  (pairwise_far m (merge_rectangles rects m) = true ->
     merge_rectangles (merge_rectangles rects m) m = merge_rectangles rects m)
  /\ ((length rects <= 2)%nat ->
     merge_rectangles (merge_rectangles rects m) m = merge_rectangles rects m).
Proof.
  split; [apply merge_rectangles_far|].
  intros Hlen.
  destruct rects as [|r1 [|r2 [|r3 rects]]]; [done| | |simpl in Hlen; lia].
  - by rewrite !merge_rectangles_one.
  - rewrite merge_rectangles_two.
    destruct (dist_le r1 r2 m) eqn:Hd.
    + apply merge_rectangles_one.
    + by rewrite merge_rectangles_two, Hd.
Qed.

Lemma merge_rectangles_idempotent_when_far_witness :
  let rects : list rect := [(0,0,4,4); (5,0,4,4); (20,0,4,4)] in
  pairwise_far 1 (merge_rectangles rects 1) = true
  /\ merge_rectangles (merge_rectangles rects 1) 1 = merge_rectangles rects 1
  /\ (length [(0,0,4,4); (5,0,4,4)] <= 2)%nat
  /\ merge_rectangles (merge_rectangles [(0,0,4,4); (5,0,4,4)] 1) 1
     = merge_rectangles [(0,0,4,4); (5,0,4,4)] 1.
Proof.
  intros rects.
  assert (Hfar : pairwise_far 1 (merge_rectangles rects 1) = true)
    by (vm_compute; reflexivity).
  assert (Hlen : (length [(0,0,4,4); (5,0,4,4)] <= 2)%nat) by (simpl; lia).
  split; [exact Hfar|]. split.
  - exact (proj1 (merge_rectangles_idempotent_when_far rects 1) Hfar).
  - split; [exact Hlen|].
    exact (proj2 (merge_rectangles_idempotent_when_far
                    [(0,0,4,4); (5,0,4,4)] 1) Hlen).
Defined.

(** ** The stable sort *)

Section SortBy.
Context {A : Type} (key : A -> Z).

Lemma insert_by_Permutation (x : A) (l : list A) : insert_by key x l ≡ₚ x :: l.
Proof.
  induction l as [|y l IH]; simpl; [done|].
  destruct (key x <=? key y); [done|].
  rewrite IH. apply Permutation_swap.
Qed.

Lemma sort_by_Permutation (l : list A) : sort_by key l ≡ₚ l.
Proof.
  induction l as [|x l IH]; simpl; [done|].
  by rewrite insert_by_Permutation, IH.
Qed.

Lemma insert_by_ascending (x : A) (l : list A) :
  ascending key l -> ascending key (insert_by key x l).
Proof.
  unfold ascending. induction 1 as [|y l Hl IH Hy]; simpl.
  - repeat constructor.
  - destruct (Z.leb_spec (key x) (key y)) as [Hxy|Hxy].
    + constructor; [by constructor|].
      constructor; [done|].
      eapply Forall_impl; [exact Hy|]. simpl. intros z Hz. lia.
    + constructor; [exact IH|].
      rewrite insert_by_Permutation. constructor; [lia|done].
Qed.

Lemma sort_by_ascending (l : list A) : ascending key (sort_by key l).
Proof.
  induction l as [|x l IH]; simpl; [constructor|].
  by apply insert_by_ascending.
Qed.

Lemma ascending_lookup (l : list A) i j a b :
  ascending key l -> (i < j)%nat -> l !! i = Some a -> l !! j = Some b ->
  key a <= key b.
Proof.
  unfold ascending. intros Hl. revert i j.
  induction Hl as [|y l Hl IH Hy]; intros i j Hij Hi Hj; [done|].
  destruct j as [|j]; [lia|]. simpl in Hj.
  destruct i as [|i]; simpl in Hi.
  - injection Hi as ->.
    rewrite Forall_forall in Hy. apply Hy, list_elem_of_lookup. eauto.
  - apply (IH i j); [lia|done|done].
Qed.

(** Stability: the elements of one key keep their relative order. *)
Lemma insert_by_filter_key k (x : A) (l : list A) :
  filter (λ a, key a = k) (insert_by key x l) = filter (λ a, key a = k) (x :: l).
Proof.
  induction l as [|y l IH]; simpl; [done|].
  destruct (Z.leb_spec (key x) (key y)) as [Hxy|Hxy]; [done|].
  rewrite filter_cons, IH, !filter_cons.
  repeat case_decide; try done; lia.
Qed.

Lemma sort_by_filter_key k (l : list A) :
  filter (λ a, key a = k) (sort_by key l) = filter (λ a, key a = k) l.
Proof.
  induction l as [|x l IH]; simpl; [done|].
  by rewrite insert_by_filter_key, !filter_cons, IH.
Qed.
End SortBy.

(** ** The classifier's order *)

Lemma filter_same_rank (RANK_ORDER : string -> Z) (k : Z) (l : list detected_obj) :
  filter (λ o, RANK_ORDER (obj_rank o) = k) l
  = filter (λ o, sort_key RANK_ORDER o = - k) l.
Proof.
  apply list_filter_iff. intros o. unfold sort_key. lia.
Qed.

Example detect_and_classify_order :
  sort_by (sort_key example_RANK_ORDER)
    [DetectedObj "F" (0,0,2,2) (40,40,40); DetectedObj "F" (9,0,2,2) (40,40,40);
     DetectedObj "A" (5,5,2,2) (200,200,200); DetectedObj "SS" (1,1,2,2) (250,250,250);
     DetectedObj "A" (0,7,2,2) (200,200,200)]
  = [DetectedObj "SS" (1,1,2,2) (250,250,250);
     DetectedObj "A" (5,5,2,2) (200,200,200); DetectedObj "A" (0,7,2,2) (200,200,200);
     DetectedObj "F" (0,0,2,2) (40,40,40); DetectedObj "F" (9,0,2,2) (40,40,40)].
Proof. vm_compute. reflexivity. Qed.

(** C7. [detect_and_classify] returns the per-rank detection lists,
    concatenated in the order of the rank table and then sorted: the result
    is a rearrangement of the concatenation, every object of a higher ordinal
    stands before every object of a lower ordinal, and the objects of one
    ordinal stand in their order of detection. *)
Theorem detect_and_classify_stable_descending
    (RANKS : list (string * pixel * string)) (RANK_ORDER : string -> Z)
    (contour_rects : mask -> list rect) (cfg : settings) (fr : frame) :
  let result := detect_and_classify RANKS RANK_ORDER contour_rects cfg fr in
  let detected := concat (map (detect_rank contour_rects cfg fr) RANKS) in
  result ≡ₚ detected
  /\ (forall i j a b,
        result !! i = Some a -> result !! j = Some b ->
        RANK_ORDER (obj_rank b) < RANK_ORDER (obj_rank a) -> (i < j)%nat)
  /\ (forall k,
        filter (λ o, RANK_ORDER (obj_rank o) = k) result
        = filter (λ o, RANK_ORDER (obj_rank o) = k) detected).
Proof.
  intros result detected.
  assert (Hres : result = sort_by (sort_key RANK_ORDER) detected).
  { subst result detected. unfold detect_and_classify, detect_all.
    by rewrite flat_map_concat_map. }
  rewrite Hres. split; [apply sort_by_Permutation|]. split.
  - intros i j a b Hi Hj Hlt.
    destruct (Nat.lt_trichotomy i j) as [Hij|[->|Hij]]; [done| |].
    + rewrite Hi in Hj. injection Hj as ->. lia.
    + pose proof (ascending_lookup _ _ _ _ _ _
        (sort_by_ascending (sort_key RANK_ORDER) detected) Hij Hj Hi) as Hle.
      unfold sort_key in Hle. lia.
  - intros k. rewrite !filter_same_rank. apply sort_by_filter_key.
Qed.

(** ** Settings updaters *)

Example py_int_examples :
  py_int " 42 " = Ok 42 /\ py_int "-7" = Ok (-7) /\ py_int "+1_000" = Ok 1000
  /\ py_int "" = Raise ValueError /\ py_int "abc" = Raise ValueError
  /\ py_int "1__0" = Raise ValueError /\ py_int "3.5" = Raise ValueError
  /\ py_str 12 = "12"%string /\ py_str (-3) = "-3"%string /\ py_str 0 = "0"%string.
Proof. repeat split; vm_compute; reflexivity. Qed.

(** A tab or a line feed around the digits is stripped; the separators
    28..31 are not, and the text is refused. *)
Example py_int_blanks :
  py_int (String (ascii_of_N 9) (String "5" (String (ascii_of_N 10) EmptyString)))
  = Ok 5
  /\ py_int (String (ascii_of_N 28) "5") = Raise ValueError
  /\ py_int (String "5" (String (ascii_of_N 31) EmptyString)) = Raise ValueError.
Proof. repeat split; vm_compute; reflexivity. Qed.

Lemma py_int_raises_only_ValueError text e :
  py_int text = Raise e -> e = ValueError.
Proof.
  unfold py_int. destruct (parse_int _); intros Heq; by inversion Heq.
Qed.

(** The shape shared by the seven updaters. *)
Lemma validated_update_spec (valid : Z -> Prop) (test : Z -> bool)
    (set : Z -> settings -> settings) entry s :
  (forall v, test v = true <-> valid v) ->
  stores_valid_or_keeps valid set entry s
    (except_ValueError_pass s (
       val <-! py_int entry; if test val then Ok (set val s) else Ok s)).
Proof.
  intros Htest. unfold stores_valid_or_keeps.
  destruct (py_int entry) as [v|e] eqn:Hparse; simpl.
  - destruct (test v) eqn:Hv; simpl.
    + exists (set v s). split; [done|]. left. exists v.
      by rewrite <- Htest.
    + exists s. split; [done|]. right. split; [|done].
      intros v' [= <-]. rewrite <- Htest. congruence.
  - rewrite (py_int_raises_only_ValueError _ _ Hparse). simpl.
    exists s. split; [done|]. right. split; [|done]. intros v' [=].
Qed.

(** C8. Whatever the text of the entry, each of the seven updaters returns
    without raising, and the settings it leaves are the previous ones with
    the parsed value stored in its field when the text is an integer in the
    field's range (0..255 for the colour tolerance, at least 1 for the
    minimum object count, at least 0 for the others), and the previous ones
    unchanged otherwise. *)
Theorem settings_updaters_store_valid_or_keep (entry : string) (s : settings) :
  stores_valid_or_keeps (fun v => 0 <= v <= 255) set_tolerance
    entry s (update_tolerance entry s)
  /\ stores_valid_or_keeps (fun v => 0 <= v) set_stop_at_ss
    entry s (update_stop_at entry s)
  /\ stores_valid_or_keeps (fun v => 1 <= v) set_min_objects
    entry s (update_min_objects entry s)
  /\ stores_valid_or_keeps (fun v => 0 <= v) set_click_delay_ms
    entry s (update_click_delay entry s)
  /\ stores_valid_or_keeps (fun v => 0 <= v) set_post_reroll_delay_ms
    entry s (update_post_reroll_delay entry s)
  /\ stores_valid_or_keeps (fun v => 0 <= v) set_image_poll_delay_ms
    entry s (update_image_poll_delay entry s)
  /\ stores_valid_or_keeps (fun v => 0 <= v) set_object_tolerance
    entry s (update_object_tolerance entry s).
Proof.
  repeat split;
    (apply (validated_update_spec _ (fun v => (0 <=? v) && (v <=? 255)))
     || apply (validated_update_spec _ (fun v => 0 <=? v))
     || apply (validated_update_spec _ (fun v => 1 <=? v)));
    intros v; rewrite ?andb_true_iff, ?Z.leb_le; tauto.
Qed.

Example update_tolerance_examples :
  update_tolerance "25" initial_settings = Ok (set_tolerance 25 initial_settings)
  /\ update_tolerance "256" initial_settings = Ok initial_settings
  /\ update_tolerance "-1" initial_settings = Ok initial_settings
  /\ update_tolerance "2x" initial_settings = Ok initial_settings
  /\ update_min_objects "0" initial_settings = Ok initial_settings
  /\ update_min_objects " 3" initial_settings = Ok (set_min_objects 3 initial_settings)
  /\ update_stop_at "0" initial_settings = Ok (set_stop_at_ss 0 initial_settings).
Proof. repeat split; vm_compute; reflexivity. Qed.

(** ** Starting a run *)

(** C9. When the capture region, a button position or the window title is
    missing, or the window does not exist, [start_running_async] only
    replaces the message by a precondition message: nothing is activated, no
    thread is started or replaced, the running flag and the cancellation
    event keep their values (so a flag that was false stays false and an
    unset event stays unset). When all preconditions hold it clears the
    event, sets the running flag and starts each of the two threads that is
    not alive; threads are started and a set event is cleared in that case
    only. *)
Theorem start_running_async_preconditions
    (win_exists : string -> bool) (s : run_state) :
  let '(s', effects) := start_running_async win_exists s in
  (~ preconditions_hold win_exists s ->
     message_var s' ∈ precondition_messages s
     /\ effects = []
     /\ s' = set_message (message_var s') s
     /\ running s' = running s
     /\ stop_reroll_event s' = stop_reroll_event s
     /\ image_processor_thread s' = image_processor_thread s
     /\ reroll_loop_thread s' = reroll_loop_thread s)
  /\ (preconditions_hold win_exists s ->
     stop_reroll_event s' = false
     /\ running s' = true
     /\ message_var s' = msg_starting
     /\ (not_running_thread (image_processor_thread s) = true ->
           StartImageProcessor ∈ effects
           /\ image_processor_thread s' = Some (Thread true))
     /\ (not_running_thread (reroll_loop_thread s) = true ->
           StartRerollLoop ∈ effects
           /\ reroll_loop_thread s' = Some (Thread true)))
  /\ (StartImageProcessor ∈ effects \/ StartRerollLoop ∈ effects
      \/ stop_reroll_event s' <> stop_reroll_event s ->
      preconditions_hold win_exists s).
Proof.
  unfold start_running_async, preconditions_hold, precondition_messages.
  destruct (game_area s) as [area|] eqn:Harea.
  2: { split; [|split]; [intros _; simpl; rewrite ?Harea; set_solver
                        |intros (? & _); done
                        |simpl; intros [?|[?|?]]; set_solver]. }
  destruct (chisel_button_pos s) as [chisel|] eqn:Hchisel.
  2: { split; [|split]; [intros _; simpl; rewrite ?Hchisel; set_solver
                        |intros (_ & ? & _); done
                        |simpl; intros [?|[?|?]]; set_solver]. }
  destruct (buy_button_pos s) as [buy|] eqn:Hbuy.
  2: { split; [|split]; [intros _; simpl; rewrite ?Hbuy; set_solver
                        |intros (_ & _ & ? & _); done
                        |simpl; intros [?|[?|?]]; set_solver]. }
  destruct (String.eqb_spec (game_window_title s) "") as [Htitle|Htitle].
  { split; [|split]; [intros _; simpl; set_solver
                     |intros (_ & _ & _ & ? & _); done
                     |simpl; intros [?|[?|?]]; set_solver]. }
  destruct (win_exists (game_window_title s)) eqn:Hwin; simpl.
  2: { split; [|split]; [intros _; simpl; set_solver
                        |intros (_ & _ & _ & _ & ?); done
                        |simpl; intros [?|[?|?]]; set_solver]. }
  split; [|split].
  - intros Hnot. exfalso. apply Hnot. repeat split; done.
  - intros _. repeat split; try done.
    + rewrite H. set_solver.
    + by rewrite H.
    + rewrite H. destruct (not_running_thread (image_processor_thread s));
        set_solver.
    + by rewrite H.
  - intros _. repeat split; done.
Qed.

(** Scenario D: a run start from the initial state (capture region unset). *)
Lemma start_running_async_preconditions_witness :
  let s := initial_run_state in
  let '(s', effects) := start_running_async (fun _ => true) s in
  ~ preconditions_hold (fun _ => true) s
  /\ message_var s' = msg_select_area
  /\ effects = []
  /\ running s' = false
  /\ stop_reroll_event s' = false
  /\ image_processor_thread s' = None
  /\ reroll_loop_thread s' = None.
Proof.
  assert (Hnot : ~ preconditions_hold (fun _ => true) initial_run_state)
    by (intros (Harea & _); by apply Harea).
  pose proof (start_running_async_preconditions (fun _ => true)
                initial_run_state) as Hstart.
  simpl in *. destruct Hstart as (Hfail & _ & _).
  destruct (Hfail Hnot) as (_ & Heff & _ & Hrun & Hev & Hip & Hrl).
  repeat split; done.
Defined.

(** ** Publishing the rank counts *)

Example counts_compute :
  total_count (counts_of [("F", 1); ("SS", 2)]%string) = 3
  /\ sum_eligible example_RANK_ORDER 5 (counts_of [("F", 1); ("SS", 2); ("S", 4)]%string) = 6.
Proof. split; vm_compute; reflexivity. Qed.

Lemma reset_counts_lookup ranks (counts : gmap string Z) r :
  reset_counts ranks counts !! r
  = if decide (r ∈ ranks) then Some 0 else counts !! r.
Proof.
  unfold reset_counts. revert counts.
  induction ranks as [|k ranks IH]; intros counts; cbn [foldl].
  - by rewrite decide_False by set_solver.
  - rewrite IH. destruct (decide (r ∈ ranks)) as [Hr|Hr].
    + by rewrite decide_True by set_solver.
    + destruct (decide (r = k)) as [->|Hne].
      * by rewrite lookup_insert_eq, decide_True by set_solver.
      * rewrite lookup_insert_ne by done.
        by rewrite decide_False by set_solver.
Qed.

Lemma reset_counts_dom ranks (counts : gmap string Z) :
  dom (reset_counts ranks counts) = dom counts ∪ list_to_set ranks.
Proof.
  apply set_eq. intros r.
  rewrite elem_of_dom, reset_counts_lookup, elem_of_union, elem_of_dom,
    elem_of_list_to_set.
  destruct (decide (r ∈ ranks)); naive_solver.
Qed.

Lemma total_count_insert (counts : gmap string Z) k v :
  counts !! k = None -> total_count (<[k := v]> counts) = v + total_count counts.
Proof.
  intros Hk. unfold total_count.
  rewrite map_fold_insert_L; [done| |done]. intros; lia.
Qed.

Lemma total_count_increment (counts : gmap string Z) k n :
  counts !! k = Some n ->
  total_count (<[k := n + 1]> counts) = total_count counts + 1.
Proof.
  intros Hk.
  rewrite <- (insert_delete_eq counts k (n + 1)).
  rewrite total_count_insert by apply lookup_delete_eq.
  rewrite <- (insert_id counts k n Hk) at 2.
  rewrite <- (insert_delete_eq counts k n).
  rewrite total_count_insert by apply lookup_delete_eq. lia.
Qed.

Lemma total_count_zero (counts : gmap string Z) :
  (forall k v, counts !! k = Some v -> v = 0) -> total_count counts = 0.
Proof.
  induction counts as [|k v counts Hk IH] using map_ind; intros Hzero.
  - reflexivity.
  - rewrite total_count_insert by done.
    rewrite (Hzero k v) by apply lookup_insert_eq.
    rewrite IH; [done|]. intros k' v' Hk'. apply (Hzero k').
    rewrite lookup_insert_ne; [done|]. intros ->. congruence.
Qed.

Lemma count_rank_cons r o objs :
  count_rank r (o :: objs)
  = (if decide (obj_rank o = r) then 1 else 0) + count_rank r objs.
Proof.
  unfold count_rank. rewrite filter_cons.
  destruct (decide (obj_rank o = r)); simpl length; lia.
Qed.

(** The counting loop: it ends without [KeyError] when every object's rank is
    a key, keeps the keys, adds to every key the number of its objects and to
    the total the number of objects. *)
Lemma for_each_count_obj objs (counts : gmap string Z) :
  (forall o, o ∈ objs -> is_Some (counts !! obj_rank o)) ->
  exists counts',
    for_each count_obj objs counts = Ok counts'
    /\ dom counts' = dom counts
    /\ (forall r, counts' !! r = (fun n => n + count_rank r objs) <$> counts !! r)
    /\ total_count counts' = total_count counts + Z.of_nat (length objs).
Proof.
  revert counts. induction objs as [|o objs IH]; intros counts Hkeys.
  - exists counts. repeat split; simpl; [|lia].
    intros r. destruct (counts !! r) as [n|]; simpl; [|done].
    f_equal. unfold count_rank. simpl. lia.
  - destruct (Hkeys o ltac:(set_solver)) as [n Hn].
    destruct (IH (<[obj_rank o := n + 1]> counts)) as (counts' & Hrun & Hdom & Hlk & Htot).
    { intros o' Ho'. rewrite lookup_insert_is_Some.
      destruct (decide (obj_rank o = obj_rank o')); [by left|right].
      split; [done|]. apply Hkeys. set_solver. }
    exists counts'. split; [|split; [|split]].
    + simpl. unfold count_obj at 1, getitem. rewrite Hn. simpl. exact Hrun.
    + rewrite Hdom, dom_insert_L.
      apply elem_of_dom_2 in Hn. set_solver.
    + intros r. rewrite Hlk, count_rank_cons.
      destruct (decide (obj_rank o = r)) as [<-|Hne].
      * rewrite lookup_insert_eq, Hn. simpl. f_equal. lia.
      * rewrite lookup_insert_ne by done.
        destruct (counts !! r); simpl; [f_equal; lia|done].
    + rewrite Htot, (total_count_increment _ _ _ Hn). simpl length. lia.
Qed.

(** The display loop ends without [KeyError] when every rank is a key. *)
Lemma for_each_show_count (counts : gmap string Z) ranks vars :
  (forall r, r ∈ ranks -> is_Some (counts !! r)) ->
  exists vars',
    for_each (show_count counts) ranks vars = Ok vars'
    /\ map fst vars' = map fst vars.
Proof.
  revert vars. induction ranks as [|r ranks IH]; intros vars Hkeys.
  - by exists vars.
  - destruct (Hkeys r ltac:(set_solver)) as [n Hn].
    destruct (IH (map (fun kv => if String.eqb (fst kv) r
                                 then (r, py_str n) else kv) vars))
      as (vars' & Hrun & Hfst).
    { intros r' Hr'. apply Hkeys. set_solver. }
    exists vars'. split.
    + simpl. unfold show_count at 1, getitem. rewrite Hn. simpl. exact Hrun.
    + rewrite Hfst, map_map. apply map_ext. intros [k t]. simpl.
      destruct (String.eqb_spec k r); simpl; congruence.
Qed.

Lemma initial_counts_state_inv RANKS RANK_TK_HEX :
  list_to_set (C := gset string) (map fst RANK_TK_HEX)
    = list_to_set (rank_names RANKS) ->
  counts_inv RANKS (initial_counts_state RANKS RANK_TK_HEX).
Proof.
  intros Hkeys. unfold counts_inv, initial_counts_state. simpl. split.
  - rewrite reset_counts_dom, dom_empty_L. set_solver.
  - rewrite map_map. simpl. exact Hkeys.
Qed.

(** C10. From a state whose dictionaries are keyed by the table's ranks, and
    for a list of objects whose ranks are in the table,
    [update_rank_counts_gui] returns; afterwards every rank of the table is
    mapped to the number of objects of that rank in the list, the counts sum
    to the length of the list, [last_detected_objs] is the list passed in,
    and the dictionaries are still keyed by the table's ranks. *)
Theorem update_rank_counts_gui_consistent
    (RANKS : list (string * pixel * string))
    (s : counts_state) (detected_objs : list detected_obj) :
  counts_inv RANKS s ->
  (forall o, o ∈ detected_objs -> obj_rank o ∈ rank_names RANKS) ->
  exists s',
    update_rank_counts_gui detected_objs s = Ok s'
    /\ (forall r, r ∈ rank_names RANKS ->
          rank_counts s' !! r = Some (count_rank r detected_objs))
    /\ total_count (rank_counts s') = Z.of_nat (length detected_objs)
    /\ last_detected_objs s' = detected_objs
    /\ counts_inv RANKS s'.
Proof.
  intros [Hdom Hvars] Hobjs. unfold update_rank_counts_gui.
  set (ranks := map fst (rank_count_vars s)).
  set (counts0 := reset_counts ranks (rank_counts s)).
  assert (Hin : forall r, r ∈ ranks <-> r ∈ rank_names RANKS).
  { intros r. subst ranks.
    rewrite <- (elem_of_list_to_set (C := gset string)), Hvars.
    apply elem_of_list_to_set. }
  assert (Hzero : forall r, counts0 !! r
                            = if decide (r ∈ ranks) then Some 0 else None).
  { intros r. subst counts0. rewrite reset_counts_lookup.
    destruct (decide (r ∈ ranks)) as [|Hr]; [done|].
    apply not_elem_of_dom. rewrite Hdom, elem_of_list_to_set.
    by rewrite <- Hin. }
  destruct (for_each_count_obj detected_objs counts0)
    as (counts & Hrun & Hdom' & Hlk & Htot).
  { intros o Ho. rewrite Hzero, decide_True; [done|].
    apply Hin, Hobjs, Ho. }
  destruct (for_each_show_count counts ranks (rank_count_vars s))
    as (vars & Hshow & Hfst).
  { intros r Hr. rewrite Hlk, Hzero, decide_True by done. done. }
  rewrite Hrun. simpl. rewrite Hshow. simpl.
  eexists. split; [reflexivity|]. simpl. repeat split.
  - intros r Hr. rewrite Hlk, Hzero, decide_True by (by apply Hin).
    simpl. f_equal; lia.
  - rewrite Htot, total_count_zero; [lia|].
    intros k v. rewrite Hzero. case_decide; congruence.
  - simpl. rewrite Hdom'. subst counts0. rewrite reset_counts_dom, Hdom.
    fold ranks in Hvars. rewrite Hvars. set_solver.
  - simpl. rewrite Hfst. exact Hvars.
Qed.

Lemma update_rank_counts_gui_consistent_witness :
  let s := initial_counts_state example_RANKS example_RANK_TK_HEX in
  let objs := [DetectedObj "SS" (0,0,9,4) (250,250,250);
               DetectedObj "A" (20,0,4,4) (200,200,200);
               DetectedObj "A" (40,0,4,4) (200,200,200)] in
  counts_inv example_RANKS s
  /\ (forall o, o ∈ objs -> obj_rank o ∈ rank_names example_RANKS)
  /\ exists s',
       update_rank_counts_gui objs s = Ok s'
       /\ (forall r, r ∈ rank_names example_RANKS ->
             rank_counts s' !! r = Some (count_rank r objs))
       /\ total_count (rank_counts s') = Z.of_nat (length objs)
       /\ last_detected_objs s' = objs
       /\ counts_inv example_RANKS s'.
Proof.
  intros s objs.
  assert (Hinv : counts_inv example_RANKS s).
  { apply initial_counts_state_inv. reflexivity. }
  assert (Hobjs : forall o, o ∈ objs -> obj_rank o ∈ rank_names example_RANKS).
  { intros o Ho. subst objs. simpl.
    repeat (apply elem_of_cons in Ho as [->|Ho]); simpl; set_solver. }
  split; [exact Hinv|]. split; [exact Hobjs|].
  exact (update_rank_counts_gui_consistent example_RANKS s objs Hinv Hobjs).
Defined.

Example update_rank_counts_gui_run :
  (fun s' => (rank_counts s' !! "A"%string, rank_counts s' !! "SS"%string,
              rank_counts s' !! "F"%string, total_count (rank_counts s'),
              rank_count_vars s')) <$>
  (match update_rank_counts_gui
           [DetectedObj "SS" (0,0,9,4) (250,250,250);
            DetectedObj "A" (20,0,4,4) (200,200,200);
            DetectedObj "A" (40,0,4,4) (200,200,200)]
           (initial_counts_state example_RANKS example_RANK_TK_HEX) with
   | Ok s' => Some s' | Raise _ => None end)
  = Some (Some 2, Some 1, Some 0, 3,
          [("F", "0"); ("D", "0"); ("C", "0"); ("B", "0"); ("A", "2");
           ("S", "0"); ("SS", "1")]%string).
Proof. vm_compute. reflexivity. Qed.

Example update_rank_counts_gui_unknown_rank :
  update_rank_counts_gui [DetectedObj "Z" (0,0,1,1) (0,0,0)]
    (initial_counts_state example_RANKS example_RANK_TK_HEX)
  = Raise KeyError.
Proof. vm_compute. reflexivity. Qed.

(** ** The reroll loop's exit report *)

(** After any number of completed cycles, the loop variables hold the counts
    of the snapshot read in the last completed cycle, or their initial value
    when no cycle completed. *)
Lemma run_cycles_completed RANK_ORDER cfg snaps exit rest vars clicks :
  is_exit exit = true ->
  exists clicks',
    run_cycles RANK_ORDER cfg (map NotSet snaps ++ exit :: rest) vars clicks
    = Some (match last snaps with
            | Some c =>
                {| ss_count := get_ss c;
                   filtered_count :=
                     sum_eligible RANK_ORDER (RANK_ORDER (min_quality cfg)) c |}
            | None => vars
            end, clicks').
Proof.
  intros Hexit. revert vars clicks.
  induction snaps as [|c snaps IH]; intros vars clicks.
  - simpl. destruct exit as [|[]|]; try done; eauto.
  - simpl. edestruct IH as [clicks' ->]. exists clicks'.
    rewrite last_cons. by destruct (last snaps).
Qed.

(** What the code reports: the eligible count of the flag is the one of the
    last completed cycle, not the one of the final snapshot. *)
Lemma reroll_loop_reports_last_cycle RANK_ORDER cfg snaps exit rest final :
  is_exit exit = true ->
  exists clicks,
    reroll_loop RANK_ORDER cfg (map NotSet snaps ++ exit :: rest) final
    = Some ({| report_ss_count := get_ss final;
               stopped_from_condition :=
                 (0 <? min_objects cfg)
                 && (min_objects cfg
                     <=? match last snaps with
                         | Some c => sum_eligible RANK_ORDER
                                       (RANK_ORDER (min_quality cfg)) c
                         | None => 0
                         end)
                 || (0 <? stop_at_ss cfg) && (stop_at_ss cfg <=? get_ss final) |},
            clicks).
Proof.
  intros Hexit. unfold reroll_loop.
  destruct (run_cycles_completed RANK_ORDER cfg snaps exit rest
              {| ss_count := 0; filtered_count := 0 |} [] Hexit)
    as [clicks ->].
  exists clicks. by destruct (last snaps).
Qed.

(** C4 on the code. One cycle completes with no pip on screen; in the next
    the poller sees one F pip, which meets the initial settings (minimum
    quality F, one object), and sets the event; the loop leaves at the
    checkpoint after the second click and reads that final snapshot. The
    stop condition holds on the final snapshot, but the flag reported is
    false: [filtered_count] still holds the count of the completed cycle. *)
Theorem reroll_loop_flag_ignores_final_eligible_count :
  let empty := counts_of [("F", 0); ("D", 0); ("C", 0); ("B", 0); ("A", 0);
                          ("S", 0); ("SS", 0)]%string in
  let final := counts_of [("F", 1); ("D", 0); ("C", 0); ("B", 0); ("A", 0);
                          ("S", 0); ("SS", 0)]%string in
  reroll_loop example_RANK_ORDER initial_settings
    [NotSet empty; SetAtCheckpoint AfterBuy] final
  = Some ({| report_ss_count := 0; stopped_from_condition := false |},
          [ClickChisel; ClickBuy; ClickChisel; ClickBuy])
  /\ stop_condition example_RANK_ORDER initial_settings final = true.
Proof. split; vm_compute; reflexivity. Qed.

Example reroll_loop_not_exited :
  reroll_loop example_RANK_ORDER initial_settings [NotSet ∅; NotSet ∅] ∅ = None.
Proof. reflexivity. Qed.

(** * Further properties of the code *)

(** ** The mask *)

Lemma all_within_negative p color tol : tol < 0 -> all_within p color tol = false.
Proof.
  destruct p as [[b g] r], color as [[cb cg] cr]. simpl. intros Htol.
  unfold channel_diff.
  destruct (Z.leb_spec (Z.abs (astype_int16 b - cb)) tol); [lia|done].
Qed.

Lemma all_within_full p color tol :
  pixel_uint8 p -> color_uint8 color -> 255 <= tol -> all_within p color tol = true.
Proof.
  intros Hp Hc Htol. apply all_within_spec; [done|].
  destruct p as [[b g] r], color as [[cb cg] cr].
  unfold color_uint8, pixel_uint8, uint8 in *. simpl. lia.
Qed.

(** X1. The mask is binary and has the shape of the frame: as many rows, each
    as long as the frame's, and every entry is 0 or 255, for any frame
    whatever its channel values. *)
Theorem rank_mask_binary_same_shape (fr : frame) (color : pixel) (tol : Z) :
  length (rank_mask fr color tol) = length fr
  /\ (forall i row, fr !! i = Some row ->
        exists mrow, rank_mask fr color tol !! i = Some mrow
                     /\ length mrow = length row)
  /\ (forall i j v, at2 (rank_mask fr color tol) i j = Some v -> v = 0 \/ v = 255).
Proof.
  split; [|split].
  - unfold rank_mask. by rewrite length_map.
  - intros i row Hrow. unfold rank_mask, frame, mask in *.
    rewrite list_lookup_fmap, Hrow. simpl.
    eexists. split; [reflexivity|]. by rewrite length_map.
  - intros i j v. rewrite at2_rank_mask.
    destruct (at2 fr i j) as [p|]; simpl; [|done].
    intros [= <-]. rewrite mask_value_cases.
    destruct (all_within p color tol); auto.
Qed.

Lemma count_row_const (f : pixel -> Z) (row : list pixel) (c : Z) :
  (forall p, p ∈ row -> f p = c) ->
  count_row (map f row) = if decide (c = 255) then length row else 0%nat.
Proof.
  unfold count_row. induction row as [|p row IH]; intros Hf; simpl.
  - by destruct (decide (c = 255)).
  - rewrite filter_cons, (Hf p) by set_solver.
    specialize (IH ltac:(intros; apply Hf; set_solver)).
    destruct (decide (c = 255)); simpl; by rewrite IH.
Qed.

(** X2. The two ends of the tolerance range: a negative tolerance marks no
    pixel of any frame, and a tolerance of 255 or more marks every pixel of a
    uint8 frame for a reference colour with channels in 0..255. *)
Theorem rank_mask_tolerance_extremes (fr : frame) (color : pixel) (tol : Z) :
  (tol < 0 -> count_marked (rank_mask fr color tol) = 0%nat)
  /\ (frame_uint8 fr -> color_uint8 color -> 255 <= tol ->
      count_marked (rank_mask fr color tol) = pixel_count fr).
Proof.
  unfold count_marked, pixel_count, rank_mask. split.
  - intros Htol. induction fr as [|row fr IH]; simpl; [done|].
    rewrite IH, (count_row_const _ _ 0); [done|].
    intros p _. by rewrite all_within_negative.
  - intros Hfr Hc Htol. induction Hfr as [|row fr Hrow Hfr IH]; simpl; [done|].
    rewrite IH, (count_row_const _ _ 255); [done|].
    intros p Hp. rewrite all_within_full; [done| |done|done].
    rewrite Forall_forall in Hrow. by apply Hrow.
Qed.

Lemma rank_mask_tolerance_extremes_witness :
  let fr : frame := [[(40, 40, 40); (0, 255, 7)]; [(250, 250, 250); (1, 2, 3)]] in
  -1 < 0 /\ frame_uint8 fr /\ color_uint8 (40, 40, 40) /\ 255 <= 255
  /\ count_marked (rank_mask fr (40, 40, 40) (-1)) = 0%nat
  /\ count_marked (rank_mask fr (40, 40, 40) 255) = pixel_count fr.
Proof.
  intros fr.
  assert (Hneg : -1 < 0) by lia.
  assert (Hfr : frame_uint8 fr).
  { unfold frame_uint8, fr.
    repeat match goal with |- Forall _ _ => constructor end;
      simpl; unfold uint8; lia. }
  assert (Hc : color_uint8 (40, 40, 40)) by (simpl; unfold uint8; lia).
  assert (Hfull : 255 <= 255) by lia.
  repeat (split; [assumption|]). split.
  - exact (proj1 (rank_mask_tolerance_extremes fr (40, 40, 40) (-1)) Hneg).
  - exact (proj2 (rank_mask_tolerance_extremes fr (40, 40, 40) 255) Hfr Hc Hfull).
Defined.

(** ** The rectangle metric *)

Lemma hypot_nonneg a b : (0 <= hypot a b)%R.
Proof. apply sqrt_pos. Qed.

Lemma hypot_eq_0 a b : hypot a b = 0%R <-> a = 0 /\ b = 0.
Proof.
  unfold hypot. split.
  - intros Hs. apply sqrt_eq_0 in Hs; [|apply IZR_le; nia].
    apply eq_IZR in Hs. nia.
  - intros [-> ->]. simpl. apply sqrt_0.
Qed.

(** X3. On well-formed rectangles the distance does not depend on the order
    of its arguments, and neither does the merge test. *)
Theorem rect_distance_symmetric (r1 r2 : rect) (m : Z) :
  rect_wf r1 -> rect_wf r2 ->
  rect_distance r1 r2 = rect_distance r2 r1
  /\ dist_le r1 r2 m = dist_le r2 r1 m.
Proof.
  intros H1 H2. unfold rect_distance, dist_le.
  rewrite (rect_gaps_spec r1 r2 H1 H2), (rect_gaps_spec r2 r1 H2 H1).
  assert (horizontal_gap r1 r2 = horizontal_gap r2 r1) as ->.
  { destruct r1 as [[[x1 y1] w1] h1], r2 as [[[x2 y2] w2] h2].
    unfold horizontal_gap, interval_gap. lia. }
  assert (vertical_gap r1 r2 = vertical_gap r2 r1) as ->.
  { destruct r1 as [[[x1 y1] w1] h1], r2 as [[[x2 y2] w2] h2].
    unfold vertical_gap, interval_gap. lia. }
  done.
Qed.

Lemma rect_distance_symmetric_witness :
  rect_wf (0, 0, 4, 4) /\ rect_wf (7, 8, 4, 4)
  /\ rect_distance (0, 0, 4, 4) (7, 8, 4, 4) = rect_distance (7, 8, 4, 4) (0, 0, 4, 4)
  /\ dist_le (0, 0, 4, 4) (7, 8, 4, 4) 5 = dist_le (7, 8, 4, 4) (0, 0, 4, 4) 5.
Proof.
  assert (H1 : rect_wf (0, 0, 4, 4)) by (simpl; lia).
  assert (H2 : rect_wf (7, 8, 4, 4)) by (simpl; lia).
  split; [exact H1|]. split; [exact H2|].
  exact (rect_distance_symmetric (0, 0, 4, 4) (7, 8, 4, 4) 5 H1 H2).
Defined.

(** X4. The distance is never negative, and on well-formed rectangles it is
    0 exactly when the rectangles overlap or touch on both axes; a rectangle
    is at distance 0 from itself. *)
Theorem rect_distance_zero_iff_meet (r1 r2 : rect) :
  (0 <= rect_distance r1 r2)%R
  /\ (rect_wf r1 -> rect_wf r2 ->
      (rect_distance r1 r2 = 0%R <-> x_meet r1 r2 /\ y_meet r1 r2))
  /\ (rect_wf r1 -> rect_distance r1 r1 = 0%R).
Proof.
  assert (Hiff : forall a b : rect, rect_wf a -> rect_wf b ->
            (rect_distance a b = 0%R <-> x_meet a b /\ y_meet a b)).
  { intros a b Ha Hb. unfold rect_distance.
    rewrite (rect_gaps_spec a b Ha Hb), hypot_eq_0.
    destruct a as [[[x1 y1] w1] h1], b as [[[x2 y2] w2] h2].
    unfold horizontal_gap, vertical_gap, interval_gap, x_meet, y_meet,
      intervals_meet. lia. }
  split; [|split].
  - unfold rect_distance. destruct (rect_gaps r1 r2). apply hypot_nonneg.
  - apply Hiff.
  - intros H1. apply Hiff; [done|done|].
    destruct r1 as [[[x1 y1] w1] h1]. simpl in *.
    unfold intervals_meet. lia.
Qed.

Lemma rect_distance_zero_iff_meet_witness :
  rect_wf (0, 0, 4, 4) /\ rect_wf (4, 2, 3, 3)
  /\ (rect_distance (0, 0, 4, 4) (4, 2, 3, 3) = 0%R
      <-> x_meet (0, 0, 4, 4) (4, 2, 3, 3) /\ y_meet (0, 0, 4, 4) (4, 2, 3, 3))
  /\ rect_distance (0, 0, 4, 4) (0, 0, 4, 4) = 0%R.
Proof.
  assert (H1 : rect_wf (0, 0, 4, 4)) by (simpl; lia).
  assert (H2 : rect_wf (4, 2, 3, 3)) by (simpl; lia).
  split; [exact H1|]. split; [exact H2|]. split.
  - exact (proj1 (proj2 (rect_distance_zero_iff_meet (0, 0, 4, 4) (4, 2, 3, 3))) H1 H2).
  - exact (proj2 (proj2 (rect_distance_zero_iff_meet (0, 0, 4, 4) (0, 0, 4, 4))) H1).
Defined.

(** ** The merger *)

Lemma dist_le_negative r1 r2 m : m < 0 -> dist_le r1 r2 m = false.
Proof.
  intros Hm. unfold dist_le, hypot_le. destruct (rect_gaps r1 r2).
  destruct (Z.leb_spec 0 m); [lia|done].
Qed.

Lemma pairwise_far_negative m (rects : list rect) :
  m < 0 -> pairwise_far m rects = true.
Proof.
  intros Hm. induction rects as [|r rest IH]; simpl; [done|].
  rewrite IH, andb_true_r. apply forallb_forall. intros r' _.
  by rewrite dist_le_negative.
Qed.

(** Induction along the groups of the pass. *)
Lemma merge_rectangles_ind (m : Z) (P : list rect -> list rect -> Prop) :
  P [] [] ->
  (forall r later,
      let left_over := filter (λ r', dist_le r r' m = false) later in
      P left_over (merge_rectangles left_over m) ->
      P (r :: later)
        (envelope_rect (group_envelope r m later) :: merge_rectangles left_over m)) ->
  forall rects, P rects (merge_rectangles rects m).
Proof.
  intros Hnil Hcons rects.
  remember (length rects) as n eqn:Hn.
  revert rects Hn. induction (lt_wf n) as [n _ IH]. intros rects ->.
  destruct rects as [|r later]; [exact Hnil|].
  rewrite merge_rectangles_cons. apply Hcons.
  apply (IH (length (filter (λ r', dist_le r r' m = false) later))); [|done].
  pose proof (length_filter (λ r', dist_le r r' m = false) later).
  simpl. lia.
Qed.

(** X5. The two loops of [merge_rectangles] compute the greedy grouping: the
    first rectangle seeds a group that takes every later rectangle within
    [max_distance] of the seed itself, and the pass continues on the others
    in their order. *)
Theorem merge_rectangles_greedy_groups (r : rect) (later : list rect) (m : Z) :
  merge_rectangles [] m = []
  /\ merge_rectangles (r :: later) m
     = envelope_rect
         (foldl expand (envelope_of r)
                (filter (λ r', dist_le r r' m = true) later))
       :: merge_rectangles (filter (λ r', dist_le r r' m = false) later) m.
Proof. split; [done|apply merge_rectangles_cons]. Qed.

Lemma merge_rectangles_length_le (rects : list rect) (m : Z) :
  (length (merge_rectangles rects m) <= length rects)%nat.
Proof.
  apply (merge_rectangles_ind m
    (fun rects out => (length out <= length rects)%nat)).
  - done.
  - intros r later left_over IH.
    pose proof (length_filter (λ r', dist_le r r' m = false) later).
    subst left_over. simpl. lia.
Qed.

(** X6. The pass never invents or loses a rectangle count-wise: the output
    is empty exactly for the empty input and is never longer than the
    input. *)
Theorem merge_rectangles_length (rects : list rect) (m : Z) :
  (length (merge_rectangles rects m) <= length rects)%nat
  /\ (merge_rectangles rects m = [] <-> rects = []).
Proof.
  split; [apply merge_rectangles_length_le|].
  destruct rects as [|r later]; [done|].
  by rewrite merge_rectangles_cons.
Qed.

(** X7. Nothing is dropped: every input rectangle lies inside one of the
    output rectangles. *)
Theorem merge_rectangles_covers_input (rects : list rect) (m : Z) :
  forall r, r ∈ rects -> exists out, out ∈ merge_rectangles rects m /\ covers out r.
Proof.
  apply (merge_rectangles_ind m
    (fun rects out => forall r, r ∈ rects -> exists o, o ∈ out /\ covers o r)).
  - intros r Hr. by apply elem_of_nil in Hr.
  - intros seed later left_over IH r Hr.
    apply elem_of_cons in Hr as [->|Hr].
    + eexists. split; [apply list_elem_of_here|].
      apply group_envelope_covers_seed.
    + destruct (dist_le seed r m) eqn:Hd.
      * eexists. split; [apply list_elem_of_here|].
        apply envelope_rect_covers, foldl_expand_covers_elem.
        by apply list_elem_of_filter.
      * destruct (IH r) as (o & Ho & Hcov).
        { subst left_over. by apply list_elem_of_filter. }
        exists o. split; [by apply list_elem_of_further|done].
Qed.

Lemma merge_rectangles_covers_input_witness :
  let rects : list rect := [(0,0,4,4); (5,0,4,4); (10,0,4,4)] in
  (5,0,4,4) ∈ rects
  /\ exists out, out ∈ merge_rectangles rects 1 /\ covers out (5,0,4,4).
Proof.
  intros rects.
  assert (Hin : (5,0,4,4) ∈ rects) by (subst rects; set_solver).
  split; [exact Hin|].
  exact (merge_rectangles_covers_input rects 1 (5,0,4,4) Hin).
Defined.

Lemma foldl_expand_wf (l : list rect) e :
  envelope_wf e -> envelope_wf (foldl expand e l).
Proof.
  revert e. induction l as [|r l IH]; intros e He; simpl; [done|].
  apply IH. destruct e as [[[x0 y0] x1] y1], r as [[[x y] w] h].
  simpl in *. lia.
Qed.

(** X8. Well-formed inputs give well-formed outputs: when no input rectangle
    has a negative width or height, no output rectangle has one. *)
Theorem merge_rectangles_wf (rects : list rect) (m : Z) :
  Forall rect_wf rects -> Forall rect_wf (merge_rectangles rects m).
Proof.
  apply (merge_rectangles_ind m
    (fun rects out => Forall rect_wf rects -> Forall rect_wf out)).
  - done.
  - intros r later left_over IH Hwf.
    apply Forall_cons in Hwf as [Hr Hlater]. constructor.
    + assert (Hwf : envelope_wf (group_envelope r m later)).
      { apply foldl_expand_wf. destruct r as [[[x y] w] h]. simpl in *. lia. }
      destruct (group_envelope r m later) as [[[x0 y0] x1] y1].
      simpl in *. lia.
    + apply IH. subst left_over.
      apply Forall_forall. intros r' [_ Hr']%list_elem_of_filter.
      rewrite Forall_forall in Hlater. by apply Hlater.
Qed.

Lemma merge_rectangles_wf_witness :
  let rects : list rect := [(0,0,4,4); (5,0,4,4); (10,0,4,4)] in
  Forall rect_wf rects /\ Forall rect_wf (merge_rectangles rects 1).
Proof.
  intros rects.
  assert (Hwf : Forall rect_wf rects).
  { subst rects. repeat constructor; simpl; lia. }
  split; [exact Hwf|exact (merge_rectangles_wf rects 1 Hwf)].
Defined.

Lemma foldl_expand_inside b (l : list rect) e :
  envelope_inside b e -> Forall (envelope_covers b) l ->
  envelope_inside b (foldl expand e l).
Proof.
  revert e. induction l as [|r l IH]; intros e He Hl; simpl; [done|].
  apply Forall_cons in Hl as [Hr Hl]. apply IH; [|done].
  destruct b as [[[bx0 by0] bx1] by1], e as [[[x0 y0] x1] y1],
    r as [[[x y] w] h]. simpl in *. lia.
Qed.

(** X9. The pass stays inside any region that holds the input: when every
    input rectangle lies within the bounds [b] (the frame, say), so does every
    output rectangle. *)
Theorem merge_rectangles_stays_inside (b : envelope) (rects : list rect) (m : Z) :
  Forall (envelope_covers b) rects ->
  Forall (envelope_covers b) (merge_rectangles rects m).
Proof.
  apply (merge_rectangles_ind m
    (fun rects out => Forall (envelope_covers b) rects ->
                      Forall (envelope_covers b) out)).
  - done.
  - intros r later left_over IH Hin.
    apply Forall_cons in Hin as [Hr Hlater]. constructor.
    + assert (Hg : envelope_inside b (group_envelope r m later)).
      { apply foldl_expand_inside.
        - destruct b as [[[bx0 by0] bx1] by1], r as [[[x y] w] h].
          simpl in *. lia.
        - apply Forall_forall. intros r' [_ Hr']%list_elem_of_filter.
          rewrite Forall_forall in Hlater. by apply Hlater. }
      destruct b as [[[bx0 by0] bx1] by1].
      destruct (group_envelope r m later) as [[[x0 y0] x1] y1].
      simpl in *. lia.
    + apply IH. subst left_over.
      apply Forall_forall. intros r' [_ Hr']%list_elem_of_filter.
      rewrite Forall_forall in Hlater. by apply Hlater.
Qed.

Lemma merge_rectangles_stays_inside_witness :
  let rects : list rect := [(0,0,4,4); (5,0,4,4); (10,0,4,4)] in
  let b : envelope := (0, 0, 20, 10) in
  Forall (envelope_covers b) rects
  /\ Forall (envelope_covers b) (merge_rectangles rects 1).
Proof.
  intros rects b.
  assert (Hin : Forall (envelope_covers b) rects).
  { subst rects b. repeat constructor; simpl; lia. }
  split; [exact Hin|exact (merge_rectangles_stays_inside b rects 1 Hin)].
Defined.

(** X10. The two extremes of [max_distance]: a negative value merges
    nothing (the input comes back unchanged), and when every later rectangle
    is within [max_distance] of the first, the output is the single
    rectangle enclosing them all. *)
Theorem merge_rectangles_extremes (r : rect) (later : list rect) (m : Z) :
  (m < 0 -> merge_rectangles (r :: later) m = r :: later)
  /\ (Forall (λ r', dist_le r r' m = true) later ->
      merge_rectangles (r :: later) m
      = [envelope_rect (foldl expand (envelope_of r) later)]).
Proof.
  split.
  - intros Hm. by apply merge_rectangles_far, pairwise_far_negative.
  - intros Hnear. rewrite merge_rectangles_cons. unfold group_envelope.
    rewrite (filter_all _ _ Hnear), filter_none; [done|].
    eapply Forall_impl; [exact Hnear|]. simpl. intros r' ->. done.
Qed.

Lemma merge_rectangles_extremes_witness :
  -1 < 0
  /\ Forall (λ r', dist_le (0,0,4,4) r' 6 = true) [(5,0,4,4); (10,0,4,4)]
  /\ merge_rectangles [(0,0,4,4); (5,0,4,4); (10,0,4,4)] (-1)
     = [(0,0,4,4); (5,0,4,4); (10,0,4,4)]
  /\ merge_rectangles [(0,0,4,4); (5,0,4,4); (10,0,4,4)] 6
     = [envelope_rect (foldl expand (envelope_of (0,0,4,4)) [(5,0,4,4); (10,0,4,4)])].
Proof.
  assert (Hneg : -1 < 0) by lia.
  assert (Hnear : Forall (λ r', dist_le (0,0,4,4) r' 6 = true)
                         [(5,0,4,4); (10,0,4,4)])
    by (repeat constructor).
  split; [exact Hneg|]. split; [exact Hnear|]. split.
  - exact (proj1 (merge_rectangles_extremes (0,0,4,4) [(5,0,4,4); (10,0,4,4)] (-1)) Hneg).
  - exact (proj2 (merge_rectangles_extremes (0,0,4,4) [(5,0,4,4); (10,0,4,4)] 6) Hnear).
Defined.

(** ** The classifier's objects *)

Lemma detect_rank_elem contour_rects cfg fr entry o :
  o ∈ detect_rank contour_rects cfg fr entry ->
  obj_rank o = fst (fst entry) /\ obj_cv2color o = snd (fst entry)
  /\ obj_rect o ∈ merge_rectangles
                    (contour_rects (rank_mask fr (snd (fst entry)) (tolerance cfg)))
                    (object_tolerance cfg).
Proof.
  destruct entry as [[rank bgr] hex]. unfold detect_rank. simpl.
  intros (rect & -> & Hrect)%list_elem_of_fmap. done.
Qed.

(** X11. Every object [detect_and_classify] returns carries the name and the
    colour of one entry of the rank table, and its rectangle is one of the
    merged rectangles found in that entry's mask: no object has a rank from
    outside the table, and objects of different ranks are never merged. *)
Theorem detect_and_classify_objects_from_table
    (RANKS : list (string * pixel * string)) (RANK_ORDER : string -> Z)
    (contour_rects : mask -> list rect) (cfg : settings) (fr : frame) :
  forall o, o ∈ detect_and_classify RANKS RANK_ORDER contour_rects cfg fr ->
    exists hex,
      (obj_rank o, obj_cv2color o, hex) ∈ RANKS
      /\ obj_rect o ∈ merge_rectangles
                        (contour_rects (rank_mask fr (obj_cv2color o) (tolerance cfg)))
                        (object_tolerance cfg).
Proof.
  intros o Ho. unfold detect_and_classify, detect_all in Ho.
  rewrite sort_by_Permutation in Ho.
  apply list_elem_of_In, in_flat_map in Ho as (entry & Hentry & Ho).
  apply list_elem_of_In in Hentry, Ho.
  apply detect_rank_elem in Ho as (Hrank & Hcolor & Hrect).
  destruct entry as [[rank bgr] hex]. simpl in *. subst.
  by exists hex.
Qed.

Lemma detect_and_classify_objects_from_table_witness :
  let contour_rects := fun _ : mask => [(0,0,4,4); (5,0,4,4)] in
  let o := DetectedObj "SS" (0,0,9,4) (250,250,250) in
  o ∈ detect_and_classify example_RANKS example_RANK_ORDER contour_rects
        initial_settings []
  /\ exists hex,
       (obj_rank o, obj_cv2color o, hex) ∈ example_RANKS
       /\ obj_rect o ∈ merge_rectangles
                         (contour_rects (rank_mask [] (obj_cv2color o)
                                           (tolerance initial_settings)))
                         (object_tolerance initial_settings).
Proof.
  intros contour_rects o.
  assert (Hin : o ∈ detect_and_classify example_RANKS example_RANK_ORDER
                      contour_rects initial_settings []).
  { apply list_elem_of_lookup. exists 0%nat. vm_compute. reflexivity. }
  split; [exact Hin|].
  exact (detect_and_classify_objects_from_table example_RANKS example_RANK_ORDER
           contour_rects initial_settings [] o Hin).
Defined.

(** X12. A frame in which no mask yields a contour rectangle gives no object,
    and the number of objects never exceeds the number of contour rectangles
    found over all ranks. *)
Theorem detect_and_classify_count
    (RANKS : list (string * pixel * string)) (RANK_ORDER : string -> Z)
    (contour_rects : mask -> list rect) (cfg : settings) (fr : frame) :
  let found := fun entry : string * pixel * string =>
                 contour_rects (rank_mask fr (snd (fst entry)) (tolerance cfg)) in
  (length (detect_and_classify RANKS RANK_ORDER contour_rects cfg fr)
   <= sum_list (map (fun entry => length (found entry)) RANKS))%nat
  /\ ((forall entry, entry ∈ RANKS -> found entry = []) ->
      detect_and_classify RANKS RANK_ORDER contour_rects cfg fr = []).
Proof.
  intros found.
  assert (Hlen : (length (detect_and_classify RANKS RANK_ORDER contour_rects cfg fr)
            <= sum_list (map (fun entry => length (found entry)) RANKS))%nat).
  { unfold detect_and_classify, detect_all.
    rewrite sort_by_Permutation.
    induction RANKS as [|[[rank bgr] hex] RANKS' IH]; simpl; [done|].
    rewrite length_app, length_map.
    pose proof (merge_rectangles_length_le (found (rank, bgr, hex))
                  (object_tolerance cfg)).
    subst found. simpl in *. lia. }
  split; [exact Hlen|].
  intros Hnone.
  assert (sum_list (map (fun entry => length (found entry)) RANKS) = 0%nat) as Hz.
  { clear Hlen. induction RANKS as [|entry RANKS' IH]; simpl; [done|].
    rewrite (Hnone entry) by set_solver. simpl. apply IH.
    intros e He. apply Hnone. set_solver. }
  rewrite Hz in Hlen. by apply length_zero_iff_nil, Nat.le_0_r.
Qed.

(** ** The published counts *)

Lemma for_each_show_count_result (counts : gmap string Z) ks vars :
  (forall r, r ∈ ks -> is_Some (counts !! r)) ->
  for_each (show_count counts) ks vars
  = Ok (map (fun kv => if decide (fst kv ∈ ks)
                       then (fst kv, py_str (default 0 (counts !! fst kv)))
                       else kv) vars).
Proof.
  revert vars. induction ks as [|k ks IH]; intros vars Hkeys.
  - cbn [for_each]. f_equal. rewrite <- (map_id vars) at 1. apply map_ext.
    intros kv. destruct (decide (fst kv ∈ [])) as [Hin|]; [|done].
    by apply elem_of_nil in Hin.
  - destruct (Hkeys k ltac:(set_solver)) as [n Hn].
    cbn [for_each]. unfold show_count at 1, getitem. rewrite Hn.
    cbn [res_bind].
    rewrite IH by (intros; apply Hkeys; set_solver).
    f_equal. rewrite map_map. apply map_ext. intros [k' t]. cbn [fst snd].
    destruct (String.eqb_spec k' k) as [->|Hne]; cbn [fst snd].
    + rewrite (decide_True (P := k ∈ k :: ks)) by set_solver.
      rewrite Hn. simpl. by destruct (decide (k ∈ ks)).
    + destruct (decide (k' ∈ ks)).
      * by rewrite decide_True by set_solver.
      * by rewrite decide_False by set_solver.
Qed.

Lemma sum_eligible_insert RANK_ORDER idx (counts : gmap string Z) k v :
  counts !! k = None ->
  sum_eligible RANK_ORDER idx (<[k := v]> counts)
  = (if idx <=? RANK_ORDER k then v else 0) + sum_eligible RANK_ORDER idx counts.
Proof.
  intros Hk. unfold sum_eligible.
  rewrite map_fold_insert_L; [|intros; repeat case_match; lia|done].
  destruct (idx <=? RANK_ORDER k); lia.
Qed.

Lemma sum_eligible_increment RANK_ORDER idx (counts : gmap string Z) k n :
  counts !! k = Some n ->
  sum_eligible RANK_ORDER idx (<[k := n + 1]> counts)
  = sum_eligible RANK_ORDER idx counts + (if idx <=? RANK_ORDER k then 1 else 0).
Proof.
  intros Hk.
  rewrite <- (insert_delete_eq counts k (n + 1)).
  rewrite sum_eligible_insert by apply lookup_delete_eq.
  rewrite <- (insert_id counts k n Hk) at 2.
  rewrite <- (insert_delete_eq counts k n).
  rewrite sum_eligible_insert by apply lookup_delete_eq.
  destruct (idx <=? RANK_ORDER k); lia.
Qed.

Lemma sum_eligible_zero RANK_ORDER idx (counts : gmap string Z) :
  (forall k v, counts !! k = Some v -> v = 0) ->
  sum_eligible RANK_ORDER idx counts = 0.
Proof.
  induction counts as [|k v counts Hk IH] using map_ind; intros Hzero.
  - reflexivity.
  - rewrite sum_eligible_insert by done.
    rewrite (Hzero k v) by apply lookup_insert_eq.
    rewrite IH; [by destruct (idx <=? RANK_ORDER k)|].
    intros k' v' Hk'. apply (Hzero k').
    rewrite lookup_insert_ne; [done|]. intros ->. congruence.
Qed.

Lemma for_each_count_obj_eligible RANK_ORDER idx objs (counts counts' : gmap string Z) :
  for_each count_obj objs counts = Ok counts' ->
  sum_eligible RANK_ORDER idx counts'
  = sum_eligible RANK_ORDER idx counts
    + Z.of_nat (length (filtered_objs RANK_ORDER idx objs)).
Proof.
  revert counts. induction objs as [|o objs IH]; intros counts Hrun.
  - simpl in Hrun. injection Hrun as <-. simpl. lia.
  - simpl in Hrun. unfold count_obj at 1, getitem in Hrun.
    destruct (counts !! obj_rank o) as [n|] eqn:Hn; simpl in Hrun; [|done].
    rewrite (IH _ Hrun), (sum_eligible_increment _ _ _ _ _ Hn).
    unfold filtered_objs. rewrite filter_cons.
    destruct (Z.leb_spec idx (RANK_ORDER (obj_rank o))).
    + rewrite decide_True by done. simpl length. lia.
    + rewrite decide_False by lia. lia.
Qed.

(** The exact outcome of a call whose objects all have known ranks. *)
Lemma update_rank_counts_gui_result (s : counts_state) (objs : list detected_obj) :
  dom (rank_counts s) ⊆ list_to_set (var_ranks s) ->
  (forall o, o ∈ objs -> obj_rank o ∈ var_ranks s) ->
  exists counts,
    update_rank_counts_gui objs s
    = Ok {| rank_counts := counts;
            rank_count_vars :=
              map (fun kv => (fst kv, py_str (count_rank (fst kv) objs)))
                  (rank_count_vars s);
            last_detected_objs := objs |}
    /\ (forall r, counts !! r
                  = if decide (r ∈ var_ranks s)
                    then Some (count_rank r objs) else None)
    /\ total_count counts = Z.of_nat (length objs)
    /\ (forall RANK_ORDER idx,
          sum_eligible RANK_ORDER idx counts
          = Z.of_nat (length (filtered_objs RANK_ORDER idx objs))).
Proof.
  intros Hdom Hobjs. unfold update_rank_counts_gui. fold (var_ranks s).
  set (counts0 := reset_counts (var_ranks s) (rank_counts s)).
  assert (Hzero : forall r, counts0 !! r
                    = if decide (r ∈ var_ranks s) then Some 0 else None).
  { intros r. subst counts0. rewrite reset_counts_lookup.
    destruct (decide (r ∈ var_ranks s)) as [|Hr]; [done|].
    apply not_elem_of_dom. intros Hin. apply Hr.
    apply Hdom in Hin. by apply elem_of_list_to_set in Hin. }
  destruct (for_each_count_obj objs counts0) as (counts & Hrun & _ & Hlk & Htot).
  { intros o Ho. rewrite Hzero, decide_True; [done|]. by apply Hobjs. }
  assert (Hall0 : forall k v, counts0 !! k = Some v -> v = 0).
  { intros k v. rewrite Hzero. case_decide; congruence. }
  assert (Hcounts : forall r, counts !! r
            = if decide (r ∈ var_ranks s) then Some (count_rank r objs) else None).
  { intros r. rewrite Hlk, Hzero. destruct (decide (r ∈ var_ranks s)); simpl; [|done].
    f_equal; lia. }
  exists counts. split; [|split; [exact Hcounts|split]].
  2: { rewrite Htot, total_count_zero; [lia|exact Hall0]. }
  2: { intros RANK_ORDER idx.
       rewrite (for_each_count_obj_eligible _ _ _ _ _ Hrun), sum_eligible_zero;
         [lia|exact Hall0]. }
  rewrite Hrun. simpl.
  rewrite for_each_show_count_result.
  2: { intros r Hr. by rewrite Hcounts, decide_True. }
  simpl. do 2 f_equal. apply map_ext_in. intros [k t] Hin. simpl.
  assert (k ∈ var_ranks s) as Hk.
  { unfold var_ranks. apply list_elem_of_fmap. exists (k, t). split; [done|].
    by apply list_elem_of_In. }
  by rewrite decide_True, Hcounts, decide_True.
Qed.

(** X13. What a call publishes depends on the object list alone, not on the
    counts or texts held before: each rank with a display variable is mapped
    to the number of objects of that rank (no other key is present), and each
    variable shows that number as decimal text. *)
Theorem update_rank_counts_gui_publishes (s : counts_state) (objs : list detected_obj) :
  dom (rank_counts s) ⊆ list_to_set (var_ranks s) ->
  (forall o, o ∈ objs -> obj_rank o ∈ var_ranks s) ->
  exists s',
    update_rank_counts_gui objs s = Ok s'
    /\ (forall r, rank_counts s' !! r
                  = if decide (r ∈ var_ranks s)
                    then Some (count_rank r objs) else None)
    /\ rank_count_vars s'
       = map (fun kv => (fst kv, py_str (count_rank (fst kv) objs)))
             (rank_count_vars s)
    /\ last_detected_objs s' = objs.
Proof.
  intros Hdom Hobjs.
  destruct (update_rank_counts_gui_result s objs Hdom Hobjs)
    as (counts & -> & Hc & _).
  eexists. split; [reflexivity|]. simpl. done.
Qed.

Lemma update_rank_counts_gui_publishes_witness :
  let s := initial_counts_state example_RANKS example_RANK_TK_HEX in
  let objs := [DetectedObj "SS" (0,0,9,4) (250,250,250);
               DetectedObj "A" (20,0,4,4) (200,200,200);
               DetectedObj "A" (40,0,4,4) (200,200,200)] in
  dom (rank_counts s) ⊆ list_to_set (var_ranks s)
  /\ (forall o, o ∈ objs -> obj_rank o ∈ var_ranks s)
  /\ exists s',
       update_rank_counts_gui objs s = Ok s'
       /\ (forall r, rank_counts s' !! r
                     = if decide (r ∈ var_ranks s)
                       then Some (count_rank r objs) else None)
       /\ rank_count_vars s'
          = map (fun kv => (fst kv, py_str (count_rank (fst kv) objs)))
                (rank_count_vars s)
       /\ last_detected_objs s' = objs.
Proof.
  intros s objs.
  assert (Hdom : dom (rank_counts s) ⊆ list_to_set (var_ranks s)).
  { destruct (initial_counts_state_inv example_RANKS example_RANK_TK_HEX eq_refl)
      as [Hd Hv]. fold s in Hd, Hv. unfold var_ranks. rewrite Hd, Hv. done. }
  assert (Hobjs : forall o, o ∈ objs -> obj_rank o ∈ var_ranks s).
  { intros o Ho. subst objs.
    repeat (apply elem_of_cons in Ho as [->|Ho]);
      try (apply (bool_decide_eq_true_1 _); vm_compute; reflexivity).
    by apply elem_of_nil in Ho. }
  split; [exact Hdom|]. split; [exact Hobjs|].
  exact (update_rank_counts_gui_publishes s objs Hdom Hobjs).
Defined.

Lemma for_each_count_obj_missing objs (counts : gmap string Z) :
  (exists o, o ∈ objs /\ counts !! obj_rank o = None) ->
  for_each count_obj objs counts = Raise KeyError.
Proof.
  revert counts. induction objs as [|o objs IH]; intros counts (bad & Hin & Hbad).
  - by apply elem_of_nil in Hin.
  - simpl. unfold count_obj at 1, getitem.
    destruct (counts !! obj_rank o) as [n|] eqn:Hn; simpl; [|done].
    apply IH. exists bad. apply elem_of_cons in Hin as [->|Hin]; [congruence|].
    split; [done|]. rewrite lookup_insert_ne; [done|]. intros Heq.
    rewrite <- Heq in Hbad. congruence.
Qed.

(** X14. An object whose rank is a key neither of [rank_counts] nor of
    [rank_count_vars] makes the call fail with [KeyError]; without such an
    object the call returns. *)
Theorem update_rank_counts_gui_KeyError (s : counts_state) (objs : list detected_obj) :
  let known := fun r => r ∈ dom (rank_counts s) \/ r ∈ var_ranks s in
  ((exists o, o ∈ objs /\ ~ known (obj_rank o)) ->
     update_rank_counts_gui objs s = Raise KeyError)
  /\ ((forall o, o ∈ objs -> known (obj_rank o)) ->
     exists s', update_rank_counts_gui objs s = Ok s').
Proof.
  intros known. unfold update_rank_counts_gui. fold (var_ranks s).
  set (counts0 := reset_counts (var_ranks s) (rank_counts s)).
  assert (Hknown : forall r, is_Some (counts0 !! r) <-> known r).
  { intros r. rewrite <- elem_of_dom. subst counts0 known.
    rewrite reset_counts_dom, elem_of_union, elem_of_list_to_set. done. }
  split.
  - intros (o & Ho & Hbad).
    rewrite for_each_count_obj_missing; [done|].
    exists o. split; [done|]. apply eq_None_not_Some. by rewrite Hknown.
  - intros Hall.
    destruct (for_each_count_obj objs counts0) as (counts & Hrun & Hdom & _).
    { intros o Ho. apply Hknown, Hall, Ho. }
    rewrite Hrun. simpl.
    destruct (for_each_show_count counts (var_ranks s) (rank_count_vars s))
      as (vars & Hshow & _).
    { intros r Hr. apply elem_of_dom. rewrite Hdom. apply elem_of_dom, Hknown.
      by right. }
    rewrite Hshow. simpl. eauto.
Qed.

Lemma update_rank_counts_gui_KeyError_witness :
  let s := initial_counts_state example_RANKS example_RANK_TK_HEX in
  let known := fun r => r ∈ dom (rank_counts s) \/ r ∈ var_ranks s in
  (exists o, o ∈ [DetectedObj "Z" (0,0,1,1) (0,0,0)] /\ ~ known (obj_rank o))
  /\ update_rank_counts_gui [DetectedObj "Z" (0,0,1,1) (0,0,0)] s = Raise KeyError
  /\ (forall o, o ∈ [DetectedObj "F" (0,0,1,1) (0,0,0)] -> known (obj_rank o))
  /\ exists s', update_rank_counts_gui [DetectedObj "F" (0,0,1,1) (0,0,0)] s = Ok s'.
Proof.
  intros s known.
  assert (Hbad : exists o, o ∈ [DetectedObj "Z" (0,0,1,1) (0,0,0)]
                           /\ ~ known (obj_rank o)).
  { eexists. split; [apply list_elem_of_here|].
    subst known s. simpl. intros [Hd|Hv].
    - apply elem_of_dom in Hd as [n Hn]. vm_compute in Hn. discriminate.
    - revert Hv. apply (bool_decide_eq_false_1 _). vm_compute. reflexivity. }
  assert (Hgood : forall o, o ∈ [DetectedObj "F" (0,0,1,1) (0,0,0)]
                            -> known (obj_rank o)).
  { intros o Ho. apply list_elem_of_singleton in Ho as ->.
    right. apply (bool_decide_eq_true_1 _). vm_compute. reflexivity. }
  split; [exact Hbad|]. split.
  - exact (proj1 (update_rank_counts_gui_KeyError s _) Hbad).
  - split; [exact Hgood|].
    exact (proj2 (update_rank_counts_gui_KeyError s _) Hgood).
Defined.

(** X15. One preview cycle: the list [detect_and_classify] returns is always
    accepted by [update_rank_counts_gui] (no [KeyError]) when the dictionaries
    are keyed by the table's ranks, and the counts published sum to the
    number of objects detected. *)
Theorem detect_then_update_rank_counts
    (RANKS : list (string * pixel * string)) (RANK_ORDER : string -> Z)
    (contour_rects : mask -> list rect) (cfg : settings) (fr : frame)
    (s : counts_state) :
  counts_inv RANKS s ->
  let detected := detect_and_classify RANKS RANK_ORDER contour_rects cfg fr in
  exists s',
    update_rank_counts_gui detected s = Ok s'
    /\ total_count (rank_counts s') = Z.of_nat (length detected)
    /\ (forall r, r ∈ rank_names RANKS ->
          rank_counts s' !! r = Some (count_rank r detected))
    /\ last_detected_objs s' = detected.
Proof.
  intros [Hdom Hvars] detected.
  assert (Hin : forall r, r ∈ var_ranks s <-> r ∈ rank_names RANKS).
  { intros r. unfold var_ranks.
    rewrite <- (elem_of_list_to_set (C := gset string)), Hvars.
    apply elem_of_list_to_set. }
  destruct (update_rank_counts_gui_result s detected)
    as (counts & -> & Hc & Htot & _).
  { unfold var_ranks. by rewrite Hdom, Hvars. }
  { intros o Ho. apply Hin.
    subst detected. unfold detect_and_classify, detect_all in Ho.
    rewrite sort_by_Permutation in Ho.
    apply list_elem_of_In, in_flat_map in Ho as (entry & Hentry & Ho).
    apply list_elem_of_In in Hentry, Ho.
    apply detect_rank_elem in Ho as (-> & _).
    unfold rank_names. apply list_elem_of_fmap. by exists entry. }
  eexists. split; [reflexivity|]. simpl. split; [exact Htot|]. split; [|done].
  intros r Hr. by rewrite Hc, decide_True by (by apply Hin).
Qed.

Lemma detect_then_update_rank_counts_witness :
  let s := initial_counts_state example_RANKS example_RANK_TK_HEX in
  let contour_rects := fun _ : mask => [(0,0,4,4); (5,0,4,4); (20,0,4,4)] in
  let detected := detect_and_classify example_RANKS example_RANK_ORDER
                    contour_rects initial_settings [] in
  counts_inv example_RANKS s
  /\ exists s',
       update_rank_counts_gui detected s = Ok s'
       /\ total_count (rank_counts s') = Z.of_nat (length detected)
       /\ (forall r, r ∈ rank_names example_RANKS ->
             rank_counts s' !! r = Some (count_rank r detected))
       /\ last_detected_objs s' = detected.
Proof.
  intros s contour_rects detected.
  assert (Hinv : counts_inv example_RANKS s)
    by (apply initial_counts_state_inv; reflexivity).
  split; [exact Hinv|].
  exact (detect_then_update_rank_counts example_RANKS example_RANK_ORDER
           contour_rects initial_settings [] s Hinv).
Defined.

(** X16. The published dictionary agrees with the cached list under the
    rank filter of [reroll_loop]: summing the counts of the ranks at or above
    a minimum ordinal gives the number of cached objects that pass the
    filter [RANK_ORDER[obj["rank"]] >= min_rank_idx]. *)
Theorem published_counts_match_filtered_objs
    (RANK_ORDER : string -> Z) (min_rank_idx : Z)
    (s : counts_state) (objs : list detected_obj) :
  dom (rank_counts s) ⊆ list_to_set (var_ranks s) ->
  (forall o, o ∈ objs -> obj_rank o ∈ var_ranks s) ->
  exists s',
    update_rank_counts_gui objs s = Ok s'
    /\ sum_eligible RANK_ORDER min_rank_idx (rank_counts s')
       = Z.of_nat (length (filtered_objs RANK_ORDER min_rank_idx
                             (last_detected_objs s'))).
Proof.
  intros Hdom Hobjs.
  destruct (update_rank_counts_gui_result s objs Hdom Hobjs)
    as (counts & -> & _ & _ & Hel).
  eexists. split; [reflexivity|]. simpl. apply Hel.
Qed.

Lemma published_counts_match_filtered_objs_witness :
  let s := initial_counts_state example_RANKS example_RANK_TK_HEX in
  let objs := [DetectedObj "SS" (0,0,9,4) (250,250,250);
               DetectedObj "A" (20,0,4,4) (200,200,200);
               DetectedObj "F" (40,0,4,4) (40,40,40)] in
  dom (rank_counts s) ⊆ list_to_set (var_ranks s)
  /\ (forall o, o ∈ objs -> obj_rank o ∈ var_ranks s)
  /\ exists s',
       update_rank_counts_gui objs s = Ok s'
       /\ sum_eligible example_RANK_ORDER 4 (rank_counts s')
          = Z.of_nat (length (filtered_objs example_RANK_ORDER 4
                                (last_detected_objs s'))).
Proof.
  intros s objs.
  assert (Hdom : dom (rank_counts s) ⊆ list_to_set (var_ranks s)).
  { destruct (initial_counts_state_inv example_RANKS example_RANK_TK_HEX eq_refl)
      as [Hd Hv]. fold s in Hd, Hv. unfold var_ranks. rewrite Hd, Hv. done. }
  assert (Hobjs : forall o, o ∈ objs -> obj_rank o ∈ var_ranks s).
  { intros o Ho. subst objs.
    repeat (apply elem_of_cons in Ho as [->|Ho]);
      try (apply (bool_decide_eq_true_1 _); vm_compute; reflexivity).
    by apply elem_of_nil in Ho. }
  split; [exact Hdom|]. split; [exact Hobjs|].
  exact (published_counts_match_filtered_objs example_RANK_ORDER 4 s objs Hdom Hobjs).
Defined.

(** ** Key releases in the settings entries *)

(** Every key release returns, with the field either set to the parsed value
    in range or everything as before. *)
Lemma key_release_cases f text s :
  (exists v, py_int text = Ok v /\ field_valid f v
             /\ key_release f text s
                = Ok (match f with
                      | ClickDelayEntry => set_click_delay_ms v s
                      | PostRerollDelayEntry => set_post_reroll_delay_ms v s
                      | ImagePollDelayEntry => set_image_poll_delay_ms v s
                      | ToleranceEntry => set_tolerance v s
                      | ObjectToleranceEntry => set_object_tolerance v s
                      | StopAtEntry => set_stop_at_ss v s
                      | MinObjectsEntry => set_min_objects v s
                      end))
  \/ ((forall v, py_int text = Ok v -> ~ field_valid f v)
      /\ key_release f text s = Ok s).
Proof.
  destruct (py_int text) as [v|e] eqn:Hparse.
  - destruct f; unfold key_release, update_click_delay, update_post_reroll_delay,
      update_image_poll_delay, update_tolerance, update_object_tolerance,
      update_stop_at, update_min_objects, field_valid; rewrite Hparse;
      cbn [res_bind];
      repeat match goal with
             | |- context [?a <=? ?b] => destruct (Z.leb_spec a b)
             end; cbn [andb except_ValueError_pass];
      first [ left; exists v; split; [done|]; split; [lia|done]
            | right; split; [intros v' [= <-]; lia|done] ].
  - right. split; [intros v' [=]|].
    rewrite (py_int_raises_only_ValueError _ _ Hparse) in Hparse.
    destruct f; unfold key_release, update_click_delay, update_post_reroll_delay,
      update_image_poll_delay, update_tolerance, update_object_tolerance,
      update_stop_at, update_min_objects; by rewrite Hparse.
Qed.

Lemma key_release_valid f text s s' :
  settings_valid s -> key_release f text s = Ok s' -> settings_valid s'.
Proof.
  intros Hs Hrun.
  destruct (key_release_cases f text s) as [(v & _ & Hv & Heq)|[_ Heq]];
    rewrite Heq in Hrun; injection Hrun as <-; [|done].
  intros g. pose proof (Hs g) as Hg.
  destruct f, g; simpl in *; done.
Qed.

(** X17. Whatever is typed, in whatever entries and order, every key release
    returns and the numeric settings stay in range: the colour tolerance in
    0..255, the minimum object count at least 1, the five others at least 0. *)
Theorem key_releases_keep_settings_valid
    (events : list (entry_field * string)) (s : settings) :
  settings_valid s ->
  exists s', key_releases events s = Ok s' /\ settings_valid s'
             /\ min_quality s' = min_quality s.
Proof.
  unfold key_releases. revert s.
  induction events as [|[f text] events IH]; intros s Hs.
  - by exists s.
  - simpl.
    assert (exists s1, key_release f text s = Ok s1
                       /\ min_quality s1 = min_quality s) as (s1 & Hrun & Hq).
    { destruct (key_release_cases f text s) as [(v & _ & _ & ->)|[_ ->]];
        eexists; (split; [reflexivity|]); by destruct f. }
    rewrite Hrun. simpl.
    destruct (IH s1 (key_release_valid _ _ _ _ Hs Hrun)) as (s' & Hrest & Hv & Hq').
    exists s'. split; [done|]. split; [done|]. congruence.
Qed.

Lemma key_releases_keep_settings_valid_witness :
  settings_valid initial_settings
  /\ exists s',
       key_releases [(ToleranceEntry, "300"); (MinObjectsEntry, "0");
                     (StopAtEntry, "2"); (ClickDelayEntry, "-5")]%string
                    initial_settings = Ok s'
       /\ settings_valid s' /\ min_quality s' = min_quality initial_settings.
Proof.
  assert (Hs : settings_valid initial_settings)
    by (intros f; destruct f; simpl; lia).
  split; [exact Hs|].
  exact (key_releases_keep_settings_valid _ initial_settings Hs).
Defined.

(** X18. A key release in one entry never changes a setting edited by another
    entry, nor the minimum quality. *)
Theorem key_release_touches_own_field_only (f g : entry_field) (text : string)
    (s s' : settings) :
  key_release f text s = Ok s' -> f <> g ->
  field_value g s' = field_value g s /\ min_quality s' = min_quality s.
Proof.
  intros Hrun Hfg.
  destruct (key_release_cases f text s) as [(v & _ & _ & Heq)|[_ Heq]];
    rewrite Heq in Hrun; injection Hrun as <-; [|done].
  destruct f, g; simpl; done.
Qed.

Lemma key_release_touches_own_field_only_witness :
  key_release ToleranceEntry "25" initial_settings
  = Ok (set_tolerance 25 initial_settings)
  /\ ToleranceEntry <> MinObjectsEntry
  /\ field_value MinObjectsEntry (set_tolerance 25 initial_settings)
     = field_value MinObjectsEntry initial_settings
  /\ min_quality (set_tolerance 25 initial_settings) = min_quality initial_settings.
Proof.
  assert (Hrun : key_release ToleranceEntry "25" initial_settings
                 = Ok (set_tolerance 25 initial_settings))
    by (vm_compute; reflexivity).
  assert (Hne : ToleranceEntry <> MinObjectsEntry) by discriminate.
  split; [exact Hrun|]. split; [exact Hne|].
  exact (key_release_touches_own_field_only _ _ _ _ _ Hrun Hne).
Defined.

(** X19. Repeating a key release with the same text changes nothing more:
    the second call returns the settings the first one left. *)
Theorem key_release_idempotent (f : entry_field) (text : string) (s s' : settings) :
  key_release f text s = Ok s' -> key_release f text s' = Ok s'.
Proof.
  intros Hrun.
  destruct (key_release_cases f text s) as [(v & Hp & Hv & Heq)|[Hno Heq]];
    rewrite Heq in Hrun; injection Hrun as <-.
  - destruct (key_release_cases f text
                (match f with
                 | ClickDelayEntry => set_click_delay_ms v s
                 | PostRerollDelayEntry => set_post_reroll_delay_ms v s
                 | ImagePollDelayEntry => set_image_poll_delay_ms v s
                 | ToleranceEntry => set_tolerance v s
                 | ObjectToleranceEntry => set_object_tolerance v s
                 | StopAtEntry => set_stop_at_ss v s
                 | MinObjectsEntry => set_min_objects v s
                 end)) as [(v' & Hp' & _ & ->)|[Hno _]].
    + rewrite Hp in Hp'. injection Hp' as <-. by destruct f.
    + by destruct (Hno v Hp).
  - done.
Qed.

Lemma key_release_idempotent_witness :
  key_release StopAtEntry "3" initial_settings = Ok (set_stop_at_ss 3 initial_settings)
  /\ key_release StopAtEntry "3" (set_stop_at_ss 3 initial_settings)
     = Ok (set_stop_at_ss 3 initial_settings).
Proof.
  assert (Hrun : key_release StopAtEntry "3" initial_settings
                 = Ok (set_stop_at_ss 3 initial_settings))
    by (vm_compute; reflexivity).
  split; [exact Hrun|].
  exact (key_release_idempotent _ _ _ _ Hrun).
Defined.

(** *** Decimal text and back *)

Lemma lstrip_no_space c l : is_space c = false -> lstrip (c :: l) = c :: l.
Proof. intros Hc. simpl. by rewrite Hc. Qed.

Lemma strip_no_space c l d :
  is_space c = false -> is_space d = false ->
  strip (c :: l ++ [d]) = c :: l ++ [d].
Proof.
  intros Hc Hd. unfold strip. rewrite (lstrip_no_space _ _ Hc).
  change (c :: l ++ [d]) with ((c :: l) ++ [d]).
  rewrite rev_app_distr. change (rev [d]) with [d].
  change ([d] ++ rev (c :: l)) with (d :: rev (c :: l)).
  rewrite (lstrip_no_space _ _ Hd).
  change (d :: rev (c :: l)) with ([d] ++ rev (c :: l)).
  by rewrite rev_app_distr, rev_involutive.
Qed.

Lemma strip_single c : is_space c = false -> strip [c] = [c].
Proof. intros Hc. unfold strip. simpl. rewrite Hc. simpl. by rewrite Hc. Qed.

Lemma string_of_uint_nonnil d :
  d <> Decimal.Nil -> NilZero.string_of_uint d = NilEmpty.string_of_uint d.
Proof. by destruct d. Qed.

Lemma string_of_uint_digits d :
  digits_only (list_ascii_of_string (NilEmpty.string_of_uint d)).
Proof.
  unfold digits_only.
  induction d; simpl; constructor;
    first [exact IHd | eexists; vm_compute; reflexivity].
Qed.

Lemma digit_not_space c : is_Some (digit_of c) -> is_space c = false.
Proof.
  unfold digit_of, is_space. intros [v Hv].
  destruct (N.leb_spec 48 (N_of_ascii c)), (N.leb_spec (N_of_ascii c) 57);
    simpl in Hv; try done.
  destruct (N.leb_spec 9 (N_of_ascii c)), (N.leb_spec (N_of_ascii c) 13),
    (N.eqb_spec (N_of_ascii c) 32);
    simpl; try done; lia.
Qed.

Lemma digit_not_sign c :
  is_Some (digit_of c) ->
  (N_of_ascii c =? 45)%N = false /\ (N_of_ascii c =? 43)%N = false.
Proof.
  unfold digit_of. intros [v Hv].
  destruct (N.leb_spec 48 (N_of_ascii c)); simpl in Hv; [|done].
  split; apply N.eqb_neq; lia.
Qed.

Lemma strip_unspaced l :
  Forall (fun c => is_space c = false) l -> strip l = l.
Proof.
  intros Hl. destruct l as [|c l]; [done|].
  destruct (exists_last (l := c :: l) ltac:(done)) as (l' & d & Heq).
  destruct l' as [|c' l'].
  - simpl in Heq. injection Heq as -> ->. apply strip_single.
    by apply Forall_cons in Hl as [? _].
  - rewrite Heq in *. simpl.
    apply Forall_cons in Hl as [Hc Hl].
    apply Forall_app in Hl as [_ Hd]. apply Forall_cons in Hd as [Hd _].
    by apply strip_no_space.
Qed.

(** Reading the digits of a numeral from the left. *)
Lemma parse_digits_uint d acc b :
  d <> Decimal.Nil \/ b = true ->
  parse_digits (list_ascii_of_string (NilEmpty.string_of_uint d)) acc b
  = Some (acc * 10 ^ Z.of_N (DecimalPos.Unsigned.usize d)
          + Z.of_N (DecimalPos.Unsigned.of_lu (Decimal.rev d))).
Proof.
  revert acc b.
  induction d; intros acc b Hne;
    try (simpl NilEmpty.string_of_uint; simpl list_ascii_of_string;
         cbn [parse_digits];
         match goal with
         | |- context [digit_of ?c] =>
             let v := eval vm_compute in (digit_of c) in
             change (digit_of c) with v
         end; cbv iota;
         unfold Decimal.rev; simpl Decimal.revapp;
         rewrite DecimalPos.Unsigned.of_lu_revapp;
         fold (Decimal.rev d);
         rewrite IHd by (by right);
         simpl DecimalPos.Unsigned.usize; simpl DecimalPos.Unsigned.of_lu;
         rewrite N2Z.inj_add, N2Z.inj_mul, N2Z.inj_pow, N2Z.inj_succ;
         rewrite Z.pow_succ_r by lia; f_equal; simpl Z.of_N; lia).
  destruct Hne as [Hne| ->]; [done|]. simpl. f_equal. lia.
Qed.

Lemma py_int_py_str n : py_int (py_str n) = Ok n.
Proof.
  unfold py_int, py_str, parse_int.
  destruct n as [|p|p].
  - vm_compute. reflexivity.
  - simpl Z.to_int. simpl NilZero.string_of_int.
    pose proof (DecimalPos.Unsigned.to_uint_nonnil p) as Hnn.
    rewrite (string_of_uint_nonnil _ Hnn).
    pose proof (string_of_uint_digits (Pos.to_uint p)) as Hdig.
    rewrite strip_unspaced.
    2: { eapply Forall_impl; [exact Hdig|]. apply digit_not_space. }
    destruct (list_ascii_of_string (NilEmpty.string_of_uint (Pos.to_uint p)))
      as [|c l] eqn:Hl.
    { destruct (Pos.to_uint p); done. }
    apply Forall_cons in Hdig as [Hc _].
    destruct (digit_not_sign c Hc) as [-> ->].
    rewrite <- Hl, parse_digits_uint by (by left).
    rewrite <- DecimalPos.Unsigned.of_uint_alt, DecimalPos.Unsigned.of_to.
    simpl. f_equal; lia.
  - simpl Z.to_int. simpl NilZero.string_of_int.
    pose proof (DecimalPos.Unsigned.to_uint_nonnil p) as Hnn.
    rewrite (string_of_uint_nonnil _ Hnn).
    pose proof (string_of_uint_digits (Pos.to_uint p)) as Hdig.
    simpl list_ascii_of_string.
    rewrite strip_unspaced.
    2: { constructor; [done|].
         eapply Forall_impl; [exact Hdig|]. apply digit_not_space. }
    change (N_of_ascii "-" =? 45)%N with true. cbv iota.
    rewrite parse_digits_uint by (by left).
    rewrite <- DecimalPos.Unsigned.of_uint_alt, DecimalPos.Unsigned.of_to.
    simpl. f_equal; lia.
Qed.

(** X20. The text an entry is filled with at start-up, [str(value)], reads
    back as the value: a key release that leaves that text in place keeps
    valid settings exactly as they are. *)
Theorem key_release_on_initial_text (f : entry_field) (s : settings) :
  settings_valid s ->
  py_int (entry_text f s) = Ok (field_value f s)
  /\ key_release f (entry_text f s) s = Ok s.
Proof.
  intros Hs. unfold entry_text.
  split; [apply py_int_py_str|].
  destruct (key_release_cases f (py_str (field_value f s)) s)
    as [(v & Hp & _ & ->)|[Hno _]].
  - rewrite py_int_py_str in Hp. injection Hp as <-.
    f_equal. by destruct f, s.
  - destruct (Hno _ (py_int_py_str _)). apply Hs.
Qed.

Lemma key_release_on_initial_text_witness :
  settings_valid initial_settings
  /\ py_int (entry_text PostRerollDelayEntry initial_settings) = Ok 500
  /\ key_release PostRerollDelayEntry
       (entry_text PostRerollDelayEntry initial_settings) initial_settings
     = Ok initial_settings.
Proof.
  assert (Hs : settings_valid initial_settings)
    by (intros f; destruct f; simpl; lia).
  split; [exact Hs|].
  exact (key_release_on_initial_text PostRerollDelayEntry initial_settings Hs).
Defined.

(** ** The operator's actions on the run state *)

Example set_button_position_message :
  message_var (fst (set_button_position (120, -4) "chisel" initial_run_state))
  = "Chisel button set at (120, -4)"%string.
Proof. vm_compute. reflexivity. Qed.

(** [stop_running_async] from any state leaves the running flag false and
    the cancellation event set, keeps the configuration and the thread
    handles, asks the image processor to stop exactly when its thread is
    alive, and a second call leaves the same state. *)
Lemma stop_running_async_effect (s : run_state) :
  let '(s', calls) := stop_running_async s in
  running s' = false
  /\ stop_reroll_event s' = true
  /\ game_area s' = game_area s
  /\ chisel_button_pos s' = chisel_button_pos s
  /\ buy_button_pos s' = buy_button_pos s
  /\ game_window_title s' = game_window_title s
  /\ image_processor_thread s' = image_processor_thread s
  /\ reroll_loop_thread s' = reroll_loop_thread s
  /\ (ProcessorStop ∈ calls
      <-> exists th, image_processor_thread s = Some th /\ is_alive th = true)
  /\ fst (stop_running_async s') = s'.
Proof.
  unfold stop_running_async. simpl. repeat split; try done.
  - destruct (image_processor_thread s) as [[[]]|]; simpl; intros Hin.
    + eauto.
    + apply elem_of_cons in Hin as [?|Hin]; [done|]. by apply elem_of_nil in Hin.
    + apply elem_of_cons in Hin as [?|Hin]; [done|]. by apply elem_of_nil in Hin.
  - intros (th & -> & Halive). destruct th as [alive]. simpl in *. subst.
    simpl. set_solver.
Qed.

(** X21. A stop followed by a start never leaves the cancellation event set:
    when the preconditions of a start hold, [start_running_async] after
    [stop_running_async] ends with the event clear and the running flag
    true, so the new run does not leave at its first check. *)
Theorem start_after_stop_clears_event (win_exists : string -> bool) (s : run_state) :
  preconditions_hold win_exists s ->
  let stopped := fst (stop_running_async s) in
  let restarted := fst (start_running_async win_exists stopped) in
  stop_reroll_event stopped = true
  /\ stop_reroll_event restarted = false
  /\ running restarted = true.
Proof.
  intros (Harea & Hchisel & Hbuy & Htitle & Hwin).
  unfold start_running_async, stop_running_async. simpl.
  destruct (game_area s); [|done].
  destruct (chisel_button_pos s); [|done].
  destruct (buy_button_pos s); [|done].
  destruct (String.eqb_spec (game_window_title s) ""); [done|].
  rewrite Hwin. simpl. done.
Qed.

Lemma start_after_stop_clears_event_witness :
  let s := fst (set_button_position (5, 6) "buy"
            (fst (set_button_position (3, 4) "chisel"
              (fst (on_drag_end (0, 0) (10, 10) initial_run_state))))) in
  preconditions_hold (fun _ => true) s
  /\ stop_reroll_event (fst (stop_running_async s)) = true
  /\ stop_reroll_event
       (fst (start_running_async (fun _ => true) (fst (stop_running_async s))))
     = false
  /\ running
       (fst (start_running_async (fun _ => true) (fst (stop_running_async s))))
     = true.
Proof.
  intros s.
  assert (Hpre : preconditions_hold (fun _ => true) s)
    by (repeat split; done).
  split; [exact Hpre|].
  exact (start_after_stop_clears_event (fun _ => true) s Hpre).
Defined.

(** X22. F5 is a toggle and no other key acts: pressed while running it
    stops the run (flag false, event set); pressed while not running it does
    what [start_running_async] does; any other key leaves the state alone
    and makes no call. *)
Theorem on_key_press_toggles (win_exists : string -> bool) (s : run_state) :
  on_key_press win_exists KeyOther s = (s, [])
  /\ (running s = true ->
      let s' := fst (on_key_press win_exists KeyF5 s) in
      running s' = false /\ stop_reroll_event s' = true)
  /\ (running s = false ->
      fst (on_key_press win_exists KeyF5 s)
      = fst (start_running_async win_exists s))
  /\ (running s = false -> preconditions_hold win_exists s ->
      let s' := fst (on_key_press win_exists KeyF5 s) in
      running s' = true /\ stop_reroll_event s' = false
      /\ running (fst (on_key_press win_exists KeyF5 s')) = false).
Proof.
  unfold on_key_press. split; [done|]. split; [|split].
  - intros ->. simpl. done.
  - intros ->. simpl. by destruct (start_running_async win_exists s).
  - intros Hrun (Harea & Hchisel & Hbuy & Htitle & Hwin). rewrite Hrun. simpl.
    unfold start_running_async.
    destruct (game_area s); [|done].
    destruct (chisel_button_pos s); [|done].
    destruct (buy_button_pos s); [|done].
    destruct (String.eqb_spec (game_window_title s) ""); [done|].
    rewrite Hwin. simpl. done.
Qed.

Lemma on_key_press_toggles_witness :
  let s := fst (set_button_position (5, 6) "buy"
            (fst (set_button_position (3, 4) "chisel"
              (fst (on_drag_end (0, 0) (10, 10) initial_run_state))))) in
  running s = false /\ preconditions_hold (fun _ => true) s
  /\ running (fst (on_key_press (fun _ => true) KeyF5 s)) = true
  /\ stop_reroll_event (fst (on_key_press (fun _ => true) KeyF5 s)) = false
  /\ running (fst (on_key_press (fun _ => true) KeyF5
                     (fst (on_key_press (fun _ => true) KeyF5 s)))) = false.
Proof.
  intros s.
  assert (Hrun : running s = false) by reflexivity.
  assert (Hpre : preconditions_hold (fun _ => true) s)
    by (repeat split; done).
  split; [exact Hrun|]. split; [exact Hpre|].
  exact (proj2 (proj2 (proj2 (on_key_press_toggles (fun _ => true) s))) Hrun Hpre).
Defined.

Lemma start_running_async_keeps_configured win_exists s :
  let s' := fst (start_running_async win_exists s) in
  game_area s' = game_area s
  /\ chisel_button_pos s' = chisel_button_pos s
  /\ buy_button_pos s' = buy_button_pos s
  /\ (running s' = true ->
      running s = true
      \/ (configured s /\ image_processor_thread s' <> None
          /\ reroll_loop_thread s' <> None)).
Proof.
  unfold start_running_async, configured.
  destruct (game_area s) eqn:Harea; [|simpl; auto].
  destruct (chisel_button_pos s) eqn:Hchisel; [|simpl; rewrite Harea; auto].
  destruct (buy_button_pos s) eqn:Hbuy;
    [|simpl; rewrite Harea, Hchisel; auto].
  destruct (String.eqb (game_window_title s) "");
    [simpl; rewrite Harea, Hchisel, Hbuy; auto|].
  destruct (win_exists (game_window_title s));
    simpl; rewrite ?Harea, ?Hchisel, ?Hbuy; [|auto].
  repeat split; try done. intros _. right. repeat split; try done.
  - by destruct (image_processor_thread s) as [[[]]|].
  - by destruct (reroll_loop_thread s) as [[[]]|].
Qed.

(** The invariant of the run state. *)
Lemma gui_step_invariant s ev :
  (running s = true ->
     configured s /\ image_processor_thread s <> None
     /\ reroll_loop_thread s <> None) ->
  running (gui_step s ev) = true ->
  configured (gui_step s ev)
  /\ image_processor_thread (gui_step s ev) <> None
  /\ reroll_loop_thread (gui_step s ev) <> None.
Proof.
  intros Hinv. destruct ev as [[x1 y1] [x2 y2]|pos bt|we k|ev pa la]; simpl.
  - intros Hrun. destruct (Hinv Hrun) as ((_ & Hc & Hb) & Hp & Hl).
    unfold configured. simpl. done.
  - intros Hrun. destruct (Hinv Hrun) as ((Ha & Hc & Hb) & Hp & Hl).
    unfold configured. simpl. destruct (String.eqb bt "chisel"); done.
  - destruct k; simpl; [|exact Hinv].
    destruct (running s) eqn:Hrun; simpl; [done|].
    pose proof (start_running_async_keeps_configured we s) as Hstart.
    destruct (start_running_async we s) as [s' effects]. simpl in *.
    destruct Hstart as (Ha & Hc & Hb & Hstart).
    intros Hrun'. destruct (Hstart Hrun') as [?|((Ha' & Hc' & Hb') & Hp & Hl)];
      [congruence|].
    unfold configured. rewrite Ha, Hc, Hb. done.
  - intros Hrun. destruct (Hinv Hrun) as ((Ha & Hc & Hb) & Hp & Hl).
    unfold configured. simpl. repeat split; try done.
    + by destruct (image_processor_thread s).
    + by destruct (reroll_loop_thread s).
Qed.

(** X23. Whatever the operator and the worker threads do from start-up on
    (drags, button selections, key presses, the poller setting the event,
    threads ending), the running flag is only ever true in a state where the
    capture region and both button positions are set and both threads have
    been created. *)
Theorem running_implies_configured (events : list gui_event) :
  let s := gui_run events initial_run_state in
  running s = true ->
  configured s /\ image_processor_thread s <> None /\ reroll_loop_thread s <> None.
Proof.
  unfold gui_run.
  assert (Hgen : forall s0,
    (running s0 = true ->
       configured s0 /\ image_processor_thread s0 <> None
       /\ reroll_loop_thread s0 <> None) ->
    running (fold_left gui_step events s0) = true ->
    configured (fold_left gui_step events s0)
    /\ image_processor_thread (fold_left gui_step events s0) <> None
    /\ reroll_loop_thread (fold_left gui_step events s0) <> None).
  { induction events as [|ev events IH]; intros s0 Hinv; simpl; [exact Hinv|].
    apply IH. by apply gui_step_invariant. }
  apply Hgen. simpl. done.
Qed.

Lemma running_implies_configured_witness :
  let events := [EvDragEnd (0, 0) (10, 10); EvSetButton (3, 4) "chisel";
                 EvSetButton (5, 6) "buy"; EvKey (fun _ => true) KeyF5;
                 EvWorker true false true] in
  let s := gui_run events initial_run_state in
  running s = true
  /\ configured s /\ image_processor_thread s <> None
  /\ reroll_loop_thread s <> None.
Proof.
  intros events s.
  assert (Hrun : running s = true) by reflexivity.
  split; [exact Hrun|].
  exact (running_implies_configured events Hrun).
Defined.

(** X24. The capture region stored by a drag is normalised: its left and top
    are not beyond its right and bottom whichever way the drag went, both
    corners of the drag lie in it, dragging the other way round gives the
    same region, and the rubber band shown for the same pointer position
    spans exactly that region (shifted by the overlay's origin). *)
Theorem on_drag_end_normalised (drag_start release origin : Z * Z) (s : run_state) :
  exists left top right bottom,
    game_area (fst (on_drag_end drag_start release s))
      = Some (left, top, right, bottom)
    /\ left <= right /\ top <= bottom
    /\ left <= fst drag_start <= right /\ top <= snd drag_start <= bottom
    /\ left <= fst release <= right /\ top <= snd release <= bottom
    /\ game_area (fst (on_drag_end release drag_start s))
       = Some (left, top, right, bottom)
    /\ on_drag_motion drag_start release origin
       = (left - fst origin, top - snd origin, right - left, bottom - top).
Proof.
  destruct drag_start as [x1 y1], release as [x2 y2], origin as [x y].
  exists (Z.min x1 x2), (Z.min y1 y2), (Z.max x1 x2), (Z.max y1 y2).
  simpl.
  split; [reflexivity|]. do 6 (split; [lia|]). split.
  - by rewrite (Z.min_comm x2 x1), (Z.min_comm y2 y1),
      (Z.max_comm x2 x1), (Z.max_comm y2 y1).
  - replace (Z.abs (x1 - x2)) with (Z.max x1 x2 - Z.min x1 x2) by lia.
    by replace (Z.abs (y1 - y2)) with (Z.max y1 y2 - Z.min y1 y2) by lia.
Qed.

(** X25. Selecting the region and both buttons, in any state and with
    anything happening to the positions before, makes a run start possible:
    after a drag and a click for each of the two buttons, F5 (or
    [start_running_async]) with an existing, named window sets the running
    flag, clears the event and starts every thread that is not alive. *)
Theorem configure_then_start (win_exists : string -> bool) (s : run_state)
    (drag_start release chisel buy : Z * Z) :
  game_window_title s <> ""%string ->
  win_exists (game_window_title s) = true ->
  let s1 := fst (on_drag_end drag_start release s) in
  let s2 := fst (set_button_position chisel "chisel" s1) in
  let s3 := fst (set_button_position buy "buy" s2) in
  chisel_button_pos s3 = Some chisel
  /\ buy_button_pos s3 = Some buy
  /\ preconditions_hold win_exists s3
  /\ running (fst (start_running_async win_exists s3)) = true
  /\ stop_reroll_event (fst (start_running_async win_exists s3)) = false
  /\ (not_running_thread (image_processor_thread s) = true ->
      StartImageProcessor ∈ snd (start_running_async win_exists s3))
  /\ (not_running_thread (reroll_loop_thread s) = true ->
      StartRerollLoop ∈ snd (start_running_async win_exists s3)).
Proof.
  intros Htitle Hwin.
  destruct drag_start as [x1 y1], release as [x2 y2].
  unfold start_running_async, preconditions_hold. simpl.
  destruct (String.eqb_spec (game_window_title s) ""); [done|].
  rewrite Hwin. simpl. repeat split; try done.
  - intros ->. set_solver.
  - intros ->. destruct (not_running_thread (image_processor_thread s)); set_solver.
Qed.

Lemma configure_then_start_witness :
  game_window_title initial_run_state <> ""%string
  /\ (fun _ : string => true) (game_window_title initial_run_state) = true
  /\ running (fst (start_running_async (fun _ => true)
       (fst (set_button_position (5, 6) "buy"
         (fst (set_button_position (3, 4) "chisel"
           (fst (on_drag_end (0, 0) (10, 10) initial_run_state)))))))) = true.
Proof.
  assert (Htitle : game_window_title initial_run_state <> ""%string) by done.
  assert (Hwin : (fun _ : string => true) (game_window_title initial_run_state)
                 = true) by done.
  split; [exact Htitle|]. split; [exact Hwin|].
  exact (proj1 (proj2 (proj2 (proj2
    (configure_then_start (fun _ => true) initial_run_state
       (0, 0) (10, 10) (3, 4) (5, 6) Htitle Hwin))))).
Defined.

(** ** Runs of the reroll loop *)







(** ** The minimum-quality buttons *)

Lemma config_buttons_spec RANK_TK_HEX rank buttons :
  (rank ∈ map fst buttons -> exists hex, getitem_list RANK_TK_HEX rank = Ok hex) ->
  exists buttons',
    config_buttons RANK_TK_HEX rank buttons = Ok buttons'
    /\ map fst buttons' = map fst buttons
    /\ (forall r look, (r, look) ∈ buttons' -> (sunken look = true <-> r = rank)).
Proof.
  induction buttons as [|[r old] buttons IH]; intros Hhex.
  - exists []. split; [done|]. split; [done|].
    intros r look Hin. by apply elem_of_nil in Hin.
  - destruct IH as (rest & Hrest & Hfst & Hlook).
    { intros Hin. apply Hhex. simpl. set_solver. }
    simpl. unfold look_for.
    destruct (String.eqb_spec r rank) as [->|Hne].
    + destruct Hhex as [hex Hhexeq]; [simpl; set_solver|].
      rewrite Hhexeq. simpl. rewrite Hrest. simpl.
      eexists. split; [reflexivity|]. split; [simpl; by rewrite Hfst|].
      intros r look [Heq|Hin]%elem_of_cons; [|by apply Hlook].
      injection Heq as -> ->. done.
    + simpl. rewrite Hrest. simpl.
      eexists. split; [reflexivity|]. split; [simpl; by rewrite Hfst|].
      intros r' look [Heq|Hin]%elem_of_cons; [|by apply Hlook].
      injection Heq as -> ->. simpl. split; [done|congruence].
Qed.

Lemma select_qualities_spec (RANK_TK_HEX : list (string * string))
    (ranks : list string) (st : settings * list (string * button_look)) :
  (forall r, r ∈ ranks -> exists hex, getitem_list RANK_TK_HEX r = Ok hex) ->
  (ranks = [] -> highlight_matches st) ->
  exists st',
    select_qualities RANK_TK_HEX ranks st = Ok st'
    /\ highlight_matches st'
    /\ min_quality (fst st') = default (min_quality (fst st)) (last ranks)
    /\ map fst (snd st') = map fst (snd st).
Proof.
  unfold select_qualities. revert st.
  induction ranks as [|rank ranks IH]; intros st Hhex Hinit.
  - exists st. split; [done|]. split; [by apply Hinit|]. by split.
  - destruct st as [s buttons]. simpl.
    destruct (config_buttons_spec RANK_TK_HEX rank buttons)
      as (buttons' & Hcfg & Hfst & Hlook).
    { intros _. apply Hhex. set_solver. }
    rewrite Hcfg. simpl.
    match goal with
    | |- context [for_each _ ranks ?st0] =>
        destruct (IH st0) as (st' & Hrun & Hmatch & Hq & Hfst')
    end.
    { intros r Hr. apply Hhex. set_solver. }
    { intros _. intros r look Hin. simpl in *. by apply Hlook. }
    exists st'. split; [exact Hrun|]. split; [exact Hmatch|]. split.
    + rewrite Hq, last_cons. simpl. by destruct (last ranks).
    + rewrite Hfst'. simpl. exact Hfst.
Qed.

Lemma initial_quality_buttons_highlight RANK_TK_HEX (s : settings) ranks buttons :
  initial_quality_buttons RANK_TK_HEX (min_quality s) ranks = Ok buttons ->
  highlight_matches (s, buttons) /\ map fst buttons = ranks.
Proof.
  revert buttons. induction ranks as [|rank ranks IH]; intros buttons Hbuild.
  - simpl in Hbuild. injection Hbuild as <-. split; [|done].
    intros r look Hin. by apply elem_of_nil in Hin.
  - simpl in Hbuild. unfold initial_button in Hbuild.
    destruct (getitem_list RANK_TK_HEX rank) as [hex|]; simpl in Hbuild; [|done].
    destruct (initial_quality_buttons RANK_TK_HEX (min_quality s) ranks)
      as [rest|]; simpl in Hbuild; [|done].
    injection Hbuild as <-. destruct (IH rest eq_refl) as [Hm Hf].
    split; [|simpl; by rewrite Hf].
    intros r look [Heq|Hin]%elem_of_cons; [|by apply Hm].
    injection Heq as -> ->. simpl.
    destruct (String.eqb_spec rank (min_quality s)); simpl; split; done.
Qed.

(** X28. The highlighted button is always the one of the minimum quality in
    force: from the buttons [__init__] creates, after any sequence of presses
    on buttons whose rank has a colour in [RANK_TK_HEX], every press returns,
    the minimum quality is the rank pressed last (the initial one when none
    was pressed), the buttons are still one per rank in the table's order,
    and a button is sunken exactly when its rank is the minimum quality. *)
Theorem select_qualities_highlight (RANK_TK_HEX : list (string * string))
    (s : settings) (table_ranks presses : list string)
    (buttons : list (string * button_look)) :
  initial_quality_buttons RANK_TK_HEX (min_quality s) table_ranks = Ok buttons ->
  (forall r, r ∈ presses -> exists hex, getitem_list RANK_TK_HEX r = Ok hex) ->
  exists st',
    select_qualities RANK_TK_HEX presses (s, buttons) = Ok st'
    /\ highlight_matches st'
    /\ min_quality (fst st') = default (min_quality s) (last presses)
    /\ map fst (snd st') = table_ranks.
Proof.
  intros Hinit Hhex.
  destruct (initial_quality_buttons_highlight _ _ _ _ Hinit) as [Hm Hf].
  destruct (select_qualities_spec RANK_TK_HEX presses (s, buttons) Hhex
              ltac:(by intros _)) as (st' & Hrun & Hmatch & Hq & Hfst).
  exists st'. repeat split; try done; try (by apply Hmatch).
  by rewrite Hfst.
Qed.

Lemma select_qualities_highlight_witness :
  exists buttons,
    initial_quality_buttons example_RANK_TK_HEX (min_quality initial_settings)
      (rank_names example_RANKS) = Ok buttons
    /\ (forall r, r ∈ ["A"; "SS"]%string ->
          exists hex, getitem_list example_RANK_TK_HEX r = Ok hex)
    /\ exists st',
         select_qualities example_RANK_TK_HEX ["A"; "SS"]%string
           (initial_settings, buttons) = Ok st'
         /\ highlight_matches st'
         /\ min_quality (fst st') = "SS"%string.
Proof.
  eexists. split; [vm_compute; reflexivity|].
  assert (Hhex : forall r, r ∈ ["A"; "SS"]%string ->
            exists hex, getitem_list example_RANK_TK_HEX r = Ok hex).
  { intros r Hr. repeat (apply elem_of_cons in Hr as [->|Hr]);
      [by eexists|by eexists|by apply elem_of_nil in Hr]. }
  split; [exact Hhex|].
  destruct (select_qualities_highlight example_RANK_TK_HEX initial_settings
              (rank_names example_RANKS) ["A"; "SS"]%string _ eq_refl Hhex)
    as (st' & Hrun & Hmatch & Hq & _).
  exists st'. split; [exact Hrun|]. split; [exact Hmatch|exact Hq].
Defined.

(** ** The event log *)

Lemma append_cons c (t u : string) : String c t +:+ u = String c (t +:+ u).
Proof. reflexivity. Qed.

Lemma append_nil_r (t : string) : t +:+ "" = t.
Proof. induction t as [|c t IH]; [done|by rewrite append_cons, IH]. Qed.

Lemma append_assoc (a b c : string) : (a +:+ b) +:+ c = a +:+ (b +:+ c).
Proof. induction a as [|x a IH]; [done|by rewrite !append_cons, IH]. Qed.

Lemma logged_app calls buffer :
  fold_left (fun buffer c => log_event c buffer) calls buffer
  = buffer ++ logged calls.
Proof.
  unfold logged. revert buffer.
  induction calls as [|c calls IH] using rev_ind; intros buffer.
  - simpl. by rewrite List.app_nil_r.
  - rewrite !fold_left_app. simpl. rewrite IH.
    unfold log_event. destruct (log_objects c); [done|].
    by rewrite List.app_assoc.
Qed.

Lemma logged_spec calls :
  logged calls
  = map (fun c => log_line (log_now c) (log_objects c) (log_counts c)
                           (log_settings c) (log_decision c))
        (filter (λ c, log_objects c <> []) calls).
Proof.
  induction calls as [|c calls IH] using rev_ind; [done|].
  unfold logged. rewrite fold_left_app. fold (logged calls). simpl.
  rewrite filter_app, map_app, <- IH. unfold log_event.
  rewrite filter_cons, filter_nil.
  destruct (log_objects c) eqn:Hobj.
  - rewrite decide_False by (intros H; by apply H). simpl. by rewrite List.app_nil_r.
  - rewrite decide_True by done. simpl. by rewrite Hobj.
Qed.

(** X29. The log keeps one record per logged cycle that detected something:
    a call with an empty object list leaves the buffer as it is, any other
    call appends one line after the existing ones; [dump_logs] writes the
    buffered lines in order, each followed by a newline, into one file and
    empties the buffer, so that a second dump writes no file and reports
    that there is nothing to write. *)
Theorem log_then_dump (calls : list log_call) (stamp stamp' : string) :
  let records :=
    map (fun c => log_line (log_now c) (log_objects c) (log_counts c)
                           (log_settings c) (log_decision c))
        (filter (λ c, log_objects c <> []) calls) in
  let dumped := dump_logs stamp (logged calls) in
  logged calls = records
  /\ dump_buffer dumped = []
  /\ (records = [] ->
      dump_file dumped = None /\ dump_message dumped = "No logs to write."%string)
  /\ (records <> [] ->
      dump_file dumped
      = Some ("auto_chiseler_log_" +:+ stamp +:+ ".txt",
              String.concat "" (map (fun line => line +:+ newline) records)))
  /\ dump_file (dump_logs stamp' (dump_buffer dumped)) = None
  /\ dump_message (dump_logs stamp' (dump_buffer dumped))
     = "No logs to write."%string.
Proof.
  intros records dumped. subst dumped. rewrite logged_spec. fold records.
  split; [done|].
  destruct records as [|line records]; simpl; repeat split; done.
Qed.

Lemma split_lines_newline (rest current : string) :
  split_lines (newline +:+ rest) current = current :: split_lines rest "".
Proof. reflexivity. Qed.

Lemma split_lines_char c (t current : string) :
  Ascii.eqb c (ascii_of_N 10) = false ->
  split_lines (String c t) current = split_lines t (current +:+ String c "").
Proof. intros Hc. cbn [split_lines]. by rewrite Hc. Qed.

Lemma split_lines_line (line rest current : string) :
  no_newline line = true ->
  split_lines (line +:+ newline +:+ rest) current
  = (current +:+ line) :: split_lines rest "".
Proof.
  revert current. induction line as [|c line IH]; intros current Hline.
  - change ("" +:+ newline +:+ rest) with (newline +:+ rest).
    by rewrite split_lines_newline, append_nil_r.
  - simpl in Hline. apply andb_true_iff in Hline as [Hc Hline].
    apply negb_true_iff in Hc.
    rewrite append_cons, (split_lines_char _ _ _ Hc), IH by done.
    by rewrite append_assoc.
Qed.

Lemma concat_lines_cons (line : string) (lines : list string) :
  String.concat "" (map (fun l => l +:+ newline) (line :: lines))
  = line +:+ newline +:+ String.concat "" (map (fun l => l +:+ newline) lines).
Proof.
  destruct lines as [|l lines]; simpl.
  - by rewrite append_nil_r.
  - by rewrite append_assoc.
Qed.

(** X30. The file [dump_logs] writes can be read back line by line: when no
    buffered line contains a newline, splitting the file content at its
    newlines gives the buffered lines, in order. *)
Theorem dump_logs_file_lines (stamp : string) (log_buffer : list string) :
  log_buffer <> [] ->
  Forall (fun line => no_newline line = true) log_buffer ->
  exists filename content,
    dump_file (dump_logs stamp log_buffer) = Some (filename, content)
    /\ split_lines content "" = log_buffer.
Proof.
  intros Hne Hlines.
  destruct log_buffer as [|line0 lines0]; [done|].
  eexists _, _. split; [reflexivity|].
  clear Hne. generalize dependent (line0 :: lines0). clear.
  intros lines Hlines.
  induction Hlines as [|line lines Hline Hlines IH]; [done|].
  rewrite concat_lines_cons, split_lines_line by done.
  simpl. by rewrite IH.
Qed.

Lemma dump_logs_file_lines_witness :
  let buffer := ["a | b"; "c | d"]%string in
  buffer <> []
  /\ Forall (fun line => no_newline line = true) buffer
  /\ exists filename content,
       dump_file (dump_logs "20250101_000000" buffer) = Some (filename, content)
       /\ split_lines content "" = buffer.
Proof.
  intros buffer.
  assert (Hne : buffer <> []) by done.
  assert (Hlines : Forall (fun line => no_newline line = true) buffer)
    by (repeat constructor).
  split; [exact Hne|]. split; [exact Hlines|].
  exact (dump_logs_file_lines "20250101_000000" buffer Hne Hlines).
Defined.

Example log_line_example :
  log_line "2025-01-01T00:00:00.000Z"
    [DetectedObj "SS" (1, 2, 9, 4) (250, 250, 250); DetectedObj "F" (20, 0, 4, 4) (40, 40, 40)]
    [("F", 1); ("SS", 1)]%string
    [("min_quality", "F"); ("min_objects", "1")]%string "Rolling"
  = ("2025-01-01T00:00:00.000Z | Objects Detected: 2 | "
     +:+ "Object Locations: SS@(1,2,9,4); F@(20,0,4,4) | Counts: F:1, SS:1 | "
     +:+ "Settings: min_quality=F, min_objects=1 | Decision: Rolling")%string.
Proof. vm_compute. reflexivity. Qed.
